(** * merge_codebase_to_xml: a shallow embedding and its verified properties

    The program under study is the single script [merge_codebase_to_xml.py].
    It collects source files (by a recursive directory scan and/or an explicit
    list), builds an ElementTree document with one [<file>] record per
    collected path, pretty-prints it through minidom and writes the result.

    Conventions of the embedding.
    - A Python [str] is a Rocq [string] holding the UTF-8 encoding of the
      text.  Every operation the script performs on text (lower-casing of a
      suffix, newline translation, XML escaping) only touches ASCII bytes,
      and ASCII bytes never occur inside a UTF-8 multi-byte sequence, so the
      byte-level definitions agree with the code-point-level ones.
    - The file system is a finite tree of directories and regular files
      (no symbolic links, no directory permissions); a regular file carries
      its raw bytes and a flag telling whether the process may read it.
      On such a tree [Path.resolve] is lexical; what is stated about
      resolved paths (a resolved path resolves to itself and names the
      node the original path names) holds of [Path.resolve] on any POSIX
      file system.
    - A system call ([os.mkdir], opening a file for writing) either
      succeeds or leaves the tree as it was.  A library call made of
      several system calls ([Path.mkdir] with [parents=True]) is not
      atomic: it yields the tree it leaves together with the exception it
      raises, if any.
    - [str(e)] of an exception is supplied by the platform ([describe]).
    - Logging is a list of levelled events, in emission order.
    - A Python [set] is a [gset]; its iteration order is [elements], about
      which nothing but membership and absence of duplicates is known.
    - Library behaviour ([pathlib], [ElementTree], [minidom], text-mode
      reading) is that of CPython 3.8 to 3.12 on POSIX.

    The first part of the file holds the embedding and the notions used to
    state properties; the second part holds the properties, each claim of
    the specification under its identifier (C1 to C10). *)

From Stdlib Require Import Ascii NArith.
From stdpp Require Import base option list strings countable gmap.

(** ** Python strings *)

Module PyStr.

(** [c.lower()] on one byte: only [A-Z] move.  (No code point outside
    ASCII lower-cases to one of the letters of the extension set.) *)
Definition lower_ascii (c : ascii) : ascii :=
  let n := N_of_ascii c in
  if (65 <=? n)%N && (n <=? 90)%N then ascii_of_N (n + 32) else c.

(** [s.lower()] *)
Fixpoint lower (s : string) : string :=
  match s with
  | EmptyString => EmptyString
  | String c s' => String (lower_ascii c) (lower s')
  end.

(** [s.rfind(c)]; [None] stands for Python's [-1]. *)
Fixpoint rfind (c : ascii) (s : string) : option nat :=
  match s with
  | EmptyString => None
  | String a s' =>
      match rfind c s' with
      | Some i => Some (S i)
      | None => if decide (a = c) then Some 0 else None
      end
  end.

(** [sep.join(l)] *)
Fixpoint join (sep : string) (l : list string) : string :=
  match l with
  | [] => ""
  | [x] => x
  | x :: l' => x +:+ sep +:+ join sep l'
  end.

(** [s[i:]] *)
Fixpoint drop (i : nat) (s : string) : string :=
  match i, s with
  | O, _ => s
  | S i', String _ s' => drop i' s'
  | S _, EmptyString => EmptyString
  end.

(** A single character given by its code. *)
Definition chr (n : nat) : string := String (ascii_of_nat n) EmptyString.

End PyStr.

(** ** pathlib.PurePosixPath *)

(** A path is its anchor (is there a leading [/]?) and its components.
    Construction drops empty and [.] components; [..] is kept.  Equality
    and hashing of [Path] objects are component-wise, which is the equality
    of this record. *)
Record Path := mkPath { is_absolute : bool; parts : list string }.

Global Instance Path_eq_dec : EqDecision Path.
Proof. solve_decision. Defined.

Global Instance Path_countable : Countable Path.
Proof.
  refine (inj_countable' (λ p, (is_absolute p, parts p))
                         (λ '(a, l), mkPath a l) _).
  by intros [].
Defined.

Module PurePath.

(** [p.name]: the final component, [''] when there is none. *)
Definition name (p : Path) : string := List.last (parts p) "".

(** The suffix of a final component: everything from its last dot on,
    provided that dot is neither the first nor the last character. *)
Definition suffix_of_name (nm : string) : string :=
  match PyStr.rfind "."%char nm with
  | Some i =>
      if bool_decide (0 < i) && bool_decide (i < String.length nm - 1)
      then PyStr.drop i nm else ""
  | None => ""
  end.

(** [p.suffix] *)
Definition suffix (p : Path) : string := suffix_of_name (name p).

(** [str(p)] *)
Definition str (p : Path) : string :=
  if is_absolute p then "/" +:+ PyStr.join "/" (parts p)
  else match parts p with
       | [] => "."
       | _ => PyStr.join "/" (parts p)
       end.

(** [p.parent] *)
Definition parent (p : Path) : Path :=
  mkPath (is_absolute p) (removelast (parts p)).

(** [p / c1 / ... / cn] for plain component names. *)
Definition joinpath (p : Path) (rel : list string) : Path :=
  mkPath (is_absolute p) (parts p ++ rel).

End PurePath.

(** The module-level constant [EXTENSIONS]. *)
Definition EXTENSIONS : gset string :=
  {[ ".py"; ".ts"; ".jsx"; ".js"; ".tsx" ]}.

(** The test [p.suffix.lower() in extensions] used by both collectors. *)
Definition suffix_matches (extensions : gset string) (p : Path) : bool :=
  bool_decide (PyStr.lower (PurePath.suffix p) ∈ extensions).

(** ** The file system *)

Local Unset Elimination Schemes.

Inductive node :=
| File (readable : bool) (data : string)
| Dir (entries : list (string * node)).

Local Set Elimination Schemes.

(** The error numbers the modelled system calls can report; Python maps
    them to [FileNotFoundError], [NotADirectoryError], [IsADirectoryError],
    [PermissionError] and [FileExistsError]. *)
Inductive errno := ENOENT | ENOTDIR | EISDIR | EACCES | EEXIST.

(** Exceptions the script can meet. *)
Inductive exn :=
| OSError (e : errno) (filename : Path)
| UnicodeDecodeError (data : string)
| UnicodeEncodeError (data : string)
| ExpatError (data : string).

(** Outcome of a call that may raise. *)
Inductive result (A : Type) :=
| Ok (a : A)
| Raise (e : exn).
Global Arguments Ok {A} a.
Global Arguments Raise {A} e.

(** The world the process runs in: the root directory, the current working
    directory (absolute components, no [..]) and the platform's rendering of
    exceptions as text. *)
Record World := mkWorld {
  root : list (string * node);
  cwd : list string;
  describe : exn → string
}.

Definition with_root (w : World) (r : list (string * node)) : World :=
  mkWorld r (cwd w) (describe w).

Module FS.

(** First entry of a directory listing with the given name. *)
Fixpoint find_entry (nm : string) (es : list (string * node)) : option node :=
  match es with
  | [] => None
  | (n, c) :: es' => if decide (n = nm) then Some c else find_entry nm es'
  end.

(** Kernel path walk from [cur], whose ancestors (nearest first) are [up].
    [..] steps to the parent (the root is its own parent); any other name
    must be found in the current directory.  Walking through a regular
    file fails. *)
Fixpoint walk (up : list node) (cur : node) (cs : list string) : errno + node :=
  match cs with
  | [] => inr cur
  | c :: cs' =>
      match cur with
      | File _ _ => inl ENOTDIR
      | Dir es =>
          if decide (c = "..") then
            match up with
            | [] => walk [] cur cs'
            | u :: up' => walk up' u cs'
            end
          else
            match find_entry c es with
            | Some n => walk (cur :: up) n cs'
            | None => inl ENOENT
            end
      end
  end.

(** The absolute component sequence a path denotes, before any [..] is
    interpreted. *)
Definition absolute_parts (w : World) (p : Path) : list string :=
  if is_absolute p then parts p else cwd w ++ parts p.

(** [os.stat(p)], reduced to the node found (if any). *)
Definition stat (w : World) (p : Path) : errno + node :=
  walk [] (Dir (root w)) (absolute_parts w p).

(** [p.exists()], [p.is_file()], [p.is_dir()] *)
Definition exists_ (w : World) (p : Path) : bool :=
  match stat w p with inr _ => true | inl _ => false end.
Definition is_file (w : World) (p : Path) : bool :=
  match stat w p with inr (File _ _) => true | _ => false end.
Definition is_dir (w : World) (p : Path) : bool :=
  match stat w p with inr (Dir _) => true | _ => false end.

(** Lexical removal of [..] from an absolute component sequence,
    accumulating the resolved prefix in reverse. *)
Fixpoint collapse (acc : list string) (cs : list string) : list string :=
  match cs with
  | [] => rev acc
  | c :: cs' =>
      if decide (c = "..") then collapse (tail acc) cs'
      else collapse (c :: acc) cs'
  end.

(** [p.resolve()] (non-strict).  The tree has no symbolic links, so the
    resolved path is found lexically: the path is made absolute and each
    [..] cancels the component before it. *)
Definition resolve (w : World) (p : Path) : Path :=
  mkPath true (collapse [] (absolute_parts w p)).

(** The paths [rglob('*')] yields below a directory node reached as
    [here]: every entry of the directory, then the same for each
    sub-directory. *)
Fixpoint rglob_node (here : Path) (n : node) : list Path :=
  match n with
  | File _ _ => []
  | Dir es =>
      map (λ e, PurePath.joinpath here [e.1]) es ++
      flat_map (λ e, rglob_node (PurePath.joinpath here [e.1]) e.2) es
  end.

(** [d.rglob('*')]: nothing unless [d] is a directory. *)
Definition rglob (w : World) (d : Path) : list Path :=
  match stat w d with
  | inr (Dir es) => rglob_node d (Dir es)
  | _ => []
  end.

End FS.

(** ** The two collectors *)

(** [get_target_files(input_dir, extensions)] *)
Definition get_target_files (w : World) (input_dir : Path)
    (extensions : gset string) : list Path :=
  filter (λ p, suffix_matches extensions p = true) (FS.rglob w input_dir).

(** ** Logging *)

Inductive level := INFO | WARNING | ERROR.

(** One constructor per logging call of the script, carrying the values
    interpolated into its f-string. *)
Inductive message :=
| ScanningDirectory (input_dir : Path)
| FoundInDirectory (n : nat)
| NotAValidFile (file : Path)
| AddingIndividualFiles (n : nat)
| TotalUniqueFiles (n : nat)
| NoFilesToProcess
| CreatingXmlStructure
| GeneratingPrettyXml
| CreatedOutputDirectory (output_dir : Path)
| ErrorCreatingOutputDirectory (output_dir : Path) (e : exn)
| WritingToOutputFile (output_file : Path)
| XmlFileCreationComplete
| ErrorWritingToOutputFile (output_file : Path) (e : exn).

(** What reaches standard error: log records, the usage error of the
    argument parser, and the traceback of an uncaught exception. *)
Inductive stderr_item :=
| Log (l : level) (m : message)
| ParserError (msg : string)
| Traceback (e : exn).


(** [filter_files_by_extension(files, extensions)]: the loop body, acting on
    the list under construction and the log. *)
Definition filter_files_step (w : World) (extensions : gset string)
    (st : list Path * list stderr_item) (file : Path)
    : list Path * list stderr_item :=
  let '(filtered_files, log) := st in
  if suffix_matches extensions file then
    if FS.is_file w file then
      (filtered_files ++ [FS.resolve w file], log)
    else
      (filtered_files, log ++ [Log WARNING (NotAValidFile file)])
  else st.

Definition filter_files_by_extension (w : World) (files : list Path)
    (extensions : gset string) : list Path * list stderr_item :=
  fold_left (filter_files_step w extensions) files ([], []).

(** ** Reading a file as text *)

Module Text.

Definition CR : ascii := ascii_of_nat 13.
Definition LF : ascii := ascii_of_nat 10.

(** Universal-newline translation performed by text-mode reading: each
    [\r\n] and each remaining [\r] becomes [\n]. *)
Fixpoint universal_newlines (s : string) : string :=
  match s with
  | EmptyString => EmptyString
  | String c s' =>
      if decide (c = CR) then
        match s' with
        | String c' s'' =>
            if decide (c' = LF) then String LF (universal_newlines s'')
            else String LF (universal_newlines s')
        | EmptyString => String LF EmptyString
        end
      else String c (universal_newlines s')
  end.

Definition is_cont (b : N) : bool := ((128 <=? b) && (b <=? 191))%N.

(** Admissible second byte of a three-byte sequence (no overlong forms,
    no surrogates). *)
Definition second_of_3 (b0 b1 : N) : bool :=
  (if b0 =? 224 then (160 <=? b1) && (b1 <=? 191)
   else if b0 =? 237 then (128 <=? b1) && (b1 <=? 159)
   else is_cont b1)%N.

(** Admissible second byte of a four-byte sequence (no overlong forms,
    nothing above U+10FFFF). *)
Definition second_of_4 (b0 b1 : N) : bool :=
  (if b0 =? 240 then (144 <=? b1) && (b1 <=? 191)
   else if b0 =? 244 then (128 <=? b1) && (b1 <=? 143)
   else is_cont b1)%N.

(** Strict UTF-8 well-formedness of a byte sequence. *)
Fixpoint utf8_ok (l : list N) : bool :=
  match l with
  | [] => true
  | b0 :: l1 =>
      if (b0 <=? 127)%N then utf8_ok l1
      else if ((194 <=? b0) && (b0 <=? 223))%N then
        match l1 with
        | b1 :: l2 => is_cont b1 && utf8_ok l2
        | _ => false
        end
      else if ((224 <=? b0) && (b0 <=? 239))%N then
        match l1 with
        | b1 :: b2 :: l3 => second_of_3 b0 b1 && is_cont b2 && utf8_ok l3
        | _ => false
        end
      else if ((240 <=? b0) && (b0 <=? 244))%N then
        match l1 with
        | b1 :: b2 :: b3 :: l4 =>
            second_of_4 b0 b1 && is_cont b2 && is_cont b3 && utf8_ok l4
        | _ => false
        end
      else false
  end.

Definition bytes (s : string) : list N :=
  map N_of_ascii (String.list_ascii_of_string s).

Definition utf8_valid (s : string) : bool := utf8_ok (bytes s).

End Text.

(** [p.read_text(encoding="utf-8")]: open, read everything, decode strictly,
    translate newlines. *)
Definition read_text (w : World) (p : Path) : result string :=
  match FS.stat w p with
  | inl e => Raise (OSError e p)
  | inr (Dir _) => Raise (OSError EISDIR p)
  | inr (File false _) => Raise (OSError EACCES p)
  | inr (File true data) =>
      if Text.utf8_valid data then Ok (Text.universal_newlines data)
      else Raise (UnicodeDecodeError data)
  end.

(** ** xml.etree.ElementTree *)

Local Unset Elimination Schemes.

Inductive Element := mkElement {
  tag : string;
  attrib : list (string * string);
  text : option string;
  children : list Element
}.

Local Set Elimination Schemes.

Module ET.

(** [ET.Element(tag)] *)
Definition Element_ (t : string) : Element := mkElement t [] None [].

(** [parent.append(child)] *)
Definition append (parent child : Element) : Element :=
  mkElement (tag parent) (attrib parent) (text parent)
            (children parent ++ [child]).

(** [ET.SubElement(parent, tag)]: the parent afterwards; the new element,
    which the call returns, is its last child. *)
Definition SubElement (parent : Element) (t : string) : Element :=
  append parent (Element_ t).

(** [e.text = s] *)
Definition set_text (s : string) (e : Element) : Element :=
  mkElement (tag e) (attrib e) (Some s) (children e).

Fixpoint map_last {A} (f : A → A) (l : list A) : list A :=
  match l with
  | [] => []
  | [x] => [f x]
  | x :: l' => x :: map_last f l'
  end.

(** A mutation of the element most recently attached to [parent], seen
    through [parent]: Python holds a reference to the child, so changing
    the child changes the tree. *)
Definition on_last (f : Element → Element) (parent : Element) : Element :=
  mkElement (tag parent) (attrib parent) (text parent)
            (map_last f (children parent)).

End ET.

(** The body of the [for] loop of [create_xml_structure], one statement per
    line of the source. *)
Definition create_xml_step (w : World) (root : Element) (file_path : Path)
    : Element :=
  (* file_element = ET.SubElement(root, "file") *)
  let root := ET.SubElement root "file" in
  (* filename_element = ET.SubElement(file_element, "filename") *)
  let root := ET.on_last (λ file_element,
                ET.SubElement file_element "filename") root in
  (* filename_element.text = file_path.name *)
  let root := ET.on_last (ET.on_last
                (ET.set_text (PurePath.name file_path))) root in
  (* filepath_element = ET.SubElement(file_element, "filepath") *)
  let root := ET.on_last (λ file_element,
                ET.SubElement file_element "filepath") root in
  (* filepath_element.text = str(file_path.resolve()) *)
  let root := ET.on_last (ET.on_last
                (ET.set_text (PurePath.str (FS.resolve w file_path)))) root in
  (* contents_element = ET.SubElement(file_element, "contents") *)
  let root := ET.on_last (λ file_element,
                ET.SubElement file_element "contents") root in
  (* try: contents = read_text(...)  except Exception as e: contents = ... *)
  let contents :=
    match read_text w file_path with
    | Ok contents => contents
    | Raise e => "Error reading file: " +:+ describe w e
    end in
  (* contents_element.text = contents *)
  ET.on_last (ET.on_last (ET.set_text contents)) root.

(** [create_xml_structure(files)] on the iteration order [files]. *)
Definition create_xml_from_list (w : World) (files : list Path) : Element :=
  fold_left (create_xml_step w) files (ET.Element_ "codebase").

(** [create_xml_structure(files)] *)
Definition create_xml_structure (w : World) (files : gset Path) : Element :=
  create_xml_from_list w (elements files).

(** ** xml.dom.minidom *)

Local Unset Elimination Schemes.

Inductive Node :=
| TextNode (data : string)
| ElementNode (tagName : string) (attributes : list (string * string))
              (childNodes : list Node).

Local Set Elimination Schemes.

Module DOM.

(** Every string [ET.tostring] has to emit for an element (tags are
    assumed to be XML names; the script uses four literal ones). *)
Fixpoint strings_of (e : Element) : list string :=
  match e with
  | mkElement _ attrs txt kids =>
      map snd attrs ++ option_list txt ++ flat_map strings_of kids
  end.

Definition is_control (b : N) : bool :=
  ((b <? 32) && negb ((b =? 9) || (b =? 10) || (b =? 13)))%N.

(** Does the encoding of U+FFFE or U+FFFF start here? *)
Definition noncharacter_at (l : list N) : bool :=
  match l with
  | b0 :: b1 :: b2 :: _ => ((b0 =? 239) && (b1 =? 191) && (190 <=? b2))%N
  | _ => false
  end.

(** Character data the XML parser accepts. *)
Fixpoint xml_chars_ok (l : list N) : bool :=
  match l with
  | [] => true
  | b :: l' =>
      negb (is_control b) && negb (noncharacter_at l) && xml_chars_ok l'
  end.

Definition well_formed (s : string) : bool := xml_chars_ok (Text.bytes s).

(** The tree the parser builds from a serialised element: leading text
    becomes a text node (with line ends normalised), an absent or empty
    text leaves nothing. *)
Fixpoint to_dom (e : Element) : Node :=
  match e with
  | mkElement t attrs txt kids =>
      ElementNode t attrs
        (match txt with
         | Some s =>
             if decide (s = "") then []
             else [TextNode (Text.universal_newlines s)]
         | None => []
         end ++ map to_dom kids)
  end.

(** [minidom.parseString(ET.tostring(elem, "utf-8"))] *)
Definition parseString_tostring (elem : Element) : result Node :=
  match List.find (λ s, negb (Text.utf8_valid s)) (strings_of elem) with
  | Some s => Raise (UnicodeEncodeError s)
  | None =>
      match List.find (λ s, negb (well_formed s)) (strings_of elem) with
      | Some s => Raise (ExpatError s)
      | None => Ok (to_dom elem)
      end
  end.

Definition escape_char (c : ascii) : string :=
  if decide (c = "&"%char) then "&amp;"
  else if decide (c = "<"%char) then "&lt;"
  else if decide (c = ascii_of_nat 34) then "&quot;"
  else if decide (c = ">"%char) then "&gt;"
  else String c EmptyString.

(** [_write_data]: the four chained [replace] calls, character by
    character. *)
Fixpoint write_data (data : string) : string :=
  match data with
  | EmptyString => EmptyString
  | String c s => escape_char c +:+ write_data s
  end.

Definition write_attribute (a : string * string) : string :=
  " " +:+ a.1 +:+ "=" +:+ PyStr.chr 34 +:+ write_data a.2 +:+ PyStr.chr 34.

Definition newl : string := PyStr.chr 10.

Definition concat (l : list string) : string :=
  foldr String.app "" l.

(** [node.writexml(writer, indent, addindent, newl)] *)
Fixpoint writexml (indent addindent : string) (n : Node) : string :=
  match n with
  | TextNode data => write_data (indent +:+ data +:+ newl)
  | ElementNode tagName attrs childNodes =>
      indent +:+ "<" +:+ tagName +:+ concat (map write_attribute attrs) +:+
      match childNodes with
      | [] => "/>" +:+ newl
      | [TextNode data] =>
          ">" +:+ write_data data +:+ "</" +:+ tagName +:+ ">" +:+ newl
      | _ =>
          ">" +:+ newl +:+
          concat (map (writexml (indent +:+ addindent) addindent) childNodes)
          +:+ indent +:+ "</" +:+ tagName +:+ ">" +:+ newl
      end
  end.

Definition xml_declaration : string :=
  "<?xml version=" +:+ PyStr.chr 34 +:+ "1.0" +:+ PyStr.chr 34 +:+ " ?>".

(** [document.toprettyxml(indent=...)] for the document whose root
    element is [n]. *)
Definition toprettyxml (indent : string) (n : Node) : string :=
  xml_declaration +:+ newl +:+ writexml "" indent n.

End DOM.

(** [prettify_xml(elem)] *)
Definition prettify_xml (elem : Element) : result string :=
  match DOM.parseString_tostring elem with
  | Raise e => Raise e
  | Ok reparsed => Ok (DOM.toprettyxml "  " reparsed)
  end.

(** ** Writing to the file system *)

Module FSWrite.

(** Replace the first entry called [nm], or add one at the end. *)
Fixpoint set_entry (nm : string) (n : node) (es : list (string * node))
    : list (string * node) :=
  match es with
  | [] => [(nm, n)]
  | (k, c) :: es' =>
      if decide (k = nm) then (k, n) :: es' else (k, c) :: set_entry nm n es'
  end.

(** Put [n] at the [..]-free absolute location [cs]; the directories on
    the way are expected to exist. *)
Fixpoint put (cs : list string) (n : node) (es : list (string * node))
    : list (string * node) :=
  match cs with
  | [] => es
  | [c] => set_entry c n es
  | c :: cs' =>
      match FS.find_entry c es with
      | Some (Dir sub) => set_entry c (Dir (put cs' n sub)) es
      | _ => es
      end
  end.

Definition location (w : World) (p : Path) : list string :=
  FS.collapse [] (FS.absolute_parts w p).

(** [os.mkdir(p)] *)
Definition os_mkdir (w : World) (p : Path) : result World :=
  match FS.stat w p with
  | inr _ => Raise (OSError EEXIST p)
  | inl _ =>
      match FS.stat w (PurePath.parent p) with
      | inl e => Raise (OSError e p)
      | inr (File _ _) => Raise (OSError ENOTDIR p)
      | inr (Dir _) => Ok (with_root w (put (location w p) (Dir []) (root w)))
      end
  end.

(** [p.mkdir(parents=False, exist_ok=True)] *)
Definition mkdir_single (w : World) (p : Path) : result World :=
  match os_mkdir w p with
  | Ok w' => Ok w'
  | Raise (OSError ENOENT f) => Raise (OSError ENOENT f)
  | Raise e => if FS.is_dir w p then Ok w else Raise e
  end.

(** [p.mkdir(parents=True, exist_ok=True)] where [p] has the components
    [rev rparts]; the recursion is the method's call on [p.parent].  The
    method is not atomic: a call that raises may already have created
    some of the parents.  The result is therefore the world the call
    leaves together with the exception it raises, if any. *)
Fixpoint mkdir_rev (w : World) (abs : bool) (rparts : list string)
    : World * option exn :=
  let self := mkPath abs (rev rparts) in
  match os_mkdir w self with
  | Ok w' => (w', None)
  | Raise (OSError ENOENT f) =>
      match rparts with
      | [] => (w, Some (OSError ENOENT f))
      | _ :: rparent =>
          match mkdir_rev w abs rparent with
          | (w1, Some e) => (w1, Some e)
          | (w1, None) =>
              match mkdir_single w1 self with
              | Ok w2 => (w2, None)
              | Raise e => (w1, Some e)
              end
          end
      end
  | Raise e => if FS.is_dir w self then (w, None) else (w, Some e)
  end.

Definition mkdir_parents (w : World) (p : Path) : World * option exn :=
  mkdir_rev w (is_absolute p) (rev (parts p)).

(** [p.write_text(data, encoding="utf-8")]: create or truncate, then
    write everything. *)
Definition write_text (w : World) (p : Path) (data : string) : result World :=
  match FS.stat w p with
  | inr (Dir _) => Raise (OSError EISDIR p)
  | inr (File r _) =>
      Ok (with_root w (put (location w p) (File r data) (root w)))
  | inl _ =>
      match FS.stat w (PurePath.parent p) with
      | inl e => Raise (OSError e p)
      | inr (File _ _) => Raise (OSError ENOTDIR p)
      | inr (Dir _) =>
          Ok (with_root w (put (location w p) (File true data) (root w)))
      end
  end.

End FSWrite.

(** ** The command line *)

(** The [argparse.Namespace] the parser produces: [--input-dir] is absent
    ([None]) or a path; [--file], an [append] option, is absent ([None]) or
    the list of the paths given; [--output-file] is required. *)
Record Namespace := mkNamespace {
  input_dir : option Path;
  file : option (list Path);
  output_file : Path
}.

(** What [parser.parse_args()] does with the command line: it either
    leaves the process itself (help, or an error of its own such as a
    missing [--output-file]) or returns the namespace. *)
Inductive parse_args_result :=
| ParserExit (status : Z) (printed : list stderr_item)
| Parsed (args : Namespace).

(** Truth value of [args.input_dir]: a [Path] is always true, [None] is
    false. *)
Definition truthy_path (o : option Path) : bool :=
  match o with Some _ => true | None => false end.

(** Truth value of [args.file]: [None] and the empty list are false. *)
Definition truthy_list (o : option (list Path)) : bool :=
  match o with Some (_ :: _) => true | _ => false end.

(** [parse_arguments()]: either the process exit that ends it (status and
    what was printed) or the namespace returned. [parser.error] prints the
    usage and its message on standard error and exits with status 2. *)
Definition parse_arguments (r : parse_args_result)
    : (Z * list stderr_item) + Namespace :=
  match r with
  | ParserExit status printed => inl (status, printed)
  | Parsed args =>
      if negb (truthy_path (input_dir args)) && negb (truthy_list (file args))
      then inl (2%Z, [ParserError
             "At least one of --input-dir or --file must be specified."])
      else inr args
  end.

(** ** The program *)

Inductive outcome :=
| Returned
| SystemExit (status : Z)
| Uncaught (e : exn).

(** Exit status of the interpreter for each way [main()] can end. *)
Definition exit_code (o : outcome) : Z :=
  match o with
  | Returned => 0
  | SystemExit status => status
  | Uncaught _ => 1
  end.

Record Run := mkRun {
  run_outcome : outcome;
  run_world : World;
  run_stderr : list stderr_item
}.

(** Lines 107-123 of [main]: the set of collected paths and what was
    logged while collecting. *)
Definition collect (w : World) (args : Namespace)
    : gset Path * list stderr_item :=
  let all_target_files : gset Path := ∅ in
  let '(all_target_files, log1) :=
    match input_dir args with
    | Some input_dir =>
        let target_files := get_target_files w input_dir EXTENSIONS in
        (all_target_files ∪ list_to_set target_files,
         [Log INFO (ScanningDirectory input_dir);
          Log INFO (FoundInDirectory (length target_files))])
    | None => (all_target_files, [])
    end in
  let '(all_target_files, log2) :=
    if truthy_list (file args) then
      let '(individual_files, warnings) :=
        filter_files_by_extension w (default [] (file args)) EXTENSIONS in
      (all_target_files ∪ list_to_set individual_files,
       warnings ++ [Log INFO (AddingIndividualFiles (length individual_files))])
    else (all_target_files, []) in
  (all_target_files,
   log1 ++ log2 ++ [Log INFO (TotalUniqueFiles (size all_target_files))]).

(** Lines 136-143 of [main]: make sure the output directory exists.
    The world component is the file system the [try] block leaves,
    whether or not it raised. *)
Definition ensure_output_dir (w : World) (output_dir : Path)
    : World * result (list stderr_item) :=
  if FS.exists_ w output_dir then (w, Ok [])
  else
    match FSWrite.mkdir_parents w output_dir with
    | (w', None) => (w', Ok [Log INFO (CreatedOutputDirectory output_dir)])
    | (w', Some e) => (w', Raise e)
    end.

(** [main()] once the arguments are parsed. *)
Definition main_body (w : World) (args : Namespace) : Run :=
  let output_file := output_file args in
  let '(all_target_files, log) := collect w args in
  if decide (all_target_files = ∅) then
    mkRun Returned w (log ++ [Log WARNING NoFilesToProcess])
  else
    let log := log ++ [Log INFO CreatingXmlStructure] in
    let xml_root := create_xml_structure w all_target_files in
    let log := log ++ [Log INFO GeneratingPrettyXml] in
    match prettify_xml xml_root with
    | Raise e => mkRun (Uncaught e) w (log ++ [Traceback e])
    | Ok pretty_xml =>
        let output_dir := PurePath.parent output_file in
        match ensure_output_dir w output_dir with
        | (w1, Raise e) =>
            mkRun Returned w1
              (log ++ [Log ERROR (ErrorCreatingOutputDirectory output_dir e)])
        | (w1, Ok log_dir) =>
            let log := log ++ log_dir
                           ++ [Log INFO (WritingToOutputFile output_file)] in
            match FSWrite.write_text w1 output_file pretty_xml with
            | Ok w2 => mkRun Returned w2 (log ++ [Log INFO XmlFileCreationComplete])
            | Raise e =>
                mkRun Returned w1
                  (log ++ [Log ERROR (ErrorWritingToOutputFile output_file e)])
            end
        end
    end.

(** [main()] *)
Definition main (w : World) (r : parse_args_result) : Run :=
  match parse_arguments r with
  | inl (status, printed) => mkRun (SystemExit status) w printed
  | inr args => main_body w args
  end.

(** ** Induction on file-system trees *)

Section NodeInduction.

Variable P : node → Prop.
Hypothesis P_file : ∀ r d, P (File r d).
Hypothesis P_dir : ∀ es, Forall (λ e, P e.2) es → P (Dir es).


End NodeInduction.

(** ** Notions used to state the properties *)

(** The node found by following plain names (no [..]) from a node. *)
Fixpoint descend (n : node) (names : list string) : option node :=
  match names with
  | [] => Some n
  | c :: names' =>
      match n with
      | File _ _ => None
      | Dir es =>
          match FS.find_entry c es with
          | Some m => descend m names'
          | None => None
          end
      end
  end.

Definition is_directory (n : node) : Prop :=
  match n with Dir _ => True | File _ _ => False end.

(** The ancestors [up] of a walk are the nodes found at the proper
    prefixes of its position, nearest first; the position is given by its
    names in reverse. *)
Fixpoint ancestors_at (t : node) (racc : list string) (up : list node)
    : Prop :=
  match racc, up with
  | [], [] => True
  | _ :: racc', u :: up' =>
      descend t (rev racc') = Some u ∧ is_directory u ∧
      ancestors_at t racc' up'
  | _, _ => False
  end.


(** A final component carries one of the five extensions, compared without
    regard to case. *)
Definition has_source_extension (nm : string) : Prop :=
  PyStr.lower (PurePath.suffix_of_name nm)
    ∈ [".py"; ".ts"; ".jsx"; ".js"; ".tsx"].

Global Instance has_source_extension_dec nm :
  Decision (has_source_extension nm).
Proof. unfold has_source_extension. apply _. Defined.

(** A path in absolute form: anchored at the root and free of [..]. *)
Definition resolved_form (p : Path) : Prop :=
  is_absolute p = true ∧ ".." ∉ parts p.


(** The warning logged for a listed path that is not a regular file. *)
Definition skipped_warning (f : Path) : stderr_item :=
  Log WARNING (NotAValidFile f).

(** An element with text and nothing else. *)
Definition leaf (t s : string) : Element := mkElement t [] (Some s) [].

(** The text stored in a file's [contents] field. *)
Definition contents_of (w : World) (p : Path) : string :=
  match read_text w p with
  | Ok c => c
  | Raise e => "Error reading file: " +:+ describe w e
  end.

(** The [<file>] record of a path. *)
Definition file_record (w : World) (p : Path) : Element :=
  mkElement "file" [] None
    [leaf "filename" (PurePath.name p);
     leaf "filepath" (PurePath.str (FS.resolve w p));
     leaf "contents" (contents_of w p)].

(** Text of the first child of [e] with tag [t]. *)
Definition field (t : string) (e : Element) : option string :=
  match List.find (λ c, bool_decide (tag c = t)) (children e) with
  | Some c => text c
  | None => None
  end.

(** No element of the tree carries an attribute. *)
Fixpoint attribute_free (e : Element) : bool :=
  match e with
  | mkElement _ attrs _ kids =>
      bool_decide (attrs = []) && forallb attribute_free kids
  end.

(** Reading a serialised document back: enough of an XML reader to recover
    the text of the elements with a given name. *)
Module XmlRead.

Inductive piece :=
| Chars (s : string)      (* character data between two tags *)
| Tag (s : string)        (* what stands between [<] and [>] *)
| Partial (s : string).   (* the end of a tag whose [<] is still to come *)

(** Put one more character in front of an already split text. *)
Definition cons_piece (c : ascii) (rest : list piece) : list piece :=
  if decide (c = ">"%char) then Partial "" :: rest
  else if decide (c = "<"%char) then
    match rest with
    | Partial s :: r => Tag s :: r
    | _ => Chars "<" :: rest
    end
  else
    match rest with
    | Partial s :: r => Partial (String c s) :: r
    | Chars s :: r => Chars (String c s) :: r
    | _ => Chars (String c "") :: rest
    end.

(** Split a document at its angle brackets. *)
Fixpoint pieces (doc : string) : list piece :=
  match doc with
  | EmptyString => []
  | String c doc' => cons_piece c (pieces doc')
  end.

(** Replace the four predefined entities the writer uses. *)
Fixpoint unescape (s : string) : string :=
  match s with
  | EmptyString => EmptyString
  | String "&" (String "a" (String "m" (String "p" (String ";" r)))) =>
      String "&" (unescape r)
  | String "&" (String "l" (String "t" (String ";" r))) =>
      String "<" (unescape r)
  | String "&" (String "g" (String "t" (String ";" r))) =>
      String ">" (unescape r)
  | String "&" (String "q" (String "u" (String "o" (String "t"
      (String ";" r))))) =>
      String (ascii_of_nat 34) (unescape r)
  | String c s' => String c (unescape s')
  end.

(** The texts of the text-only elements called [t], in document order,
    read off a split document: [prev] is the last tag met and [pending]
    the character data met since.  [<t>data</t>] gives [data] with its
    entities replaced, [<t></t>] and [<t/>] give the empty text. *)
Fixpoint texts_from (t prev pending : string) (l : list piece) : list string :=
  match l with
  | [] => []
  | Chars s :: r => texts_from t prev s r
  | Partial _ :: r => texts_from t "" "" r
  | Tag c :: r =>
      (if String.eqb c (t +:+ "/") then [""]
       else if String.eqb c ("/" +:+ t) && String.eqb prev t
            then [unescape pending]
       else []) ++ texts_from t c "" r
  end.

Definition element_texts (t : string) (doc : string) : list string :=
  texts_from t "" "" (pieces doc).

End XmlRead.

(** ** The layout of a rendered document *)

(** A rendered document seen as character data alternating with tags: a
    list of segments (character data, possibly empty, then a tag), and the
    character data after the last tag. *)
Module Layout.

Import XmlRead.

(** Free of angle brackets. *)
Fixpoint plain (s : string) : bool :=
  match s with
  | EmptyString => true
  | String c s' =>
      negb (bool_decide (c = "<"%char)) && negb (bool_decide (c = ">"%char))
      && plain s'
  end.

Definition segment : Type := string * string.

(** The text a list of segments stands for. *)
Fixpoint unsegs (segs : list segment) (tail : string) : string :=
  match segs with
  | [] => tail
  | (c, t) :: r => c +:+ "<" +:+ t +:+ ">" +:+ unsegs r tail
  end.

Definition chars (c : string) : list piece :=
  if decide (c = "") then [] else [Chars c].

Definition seg_pieces (sg : segment) : list piece :=
  chars sg.1 ++ [Tag sg.2].

(** [texts_from] on segments. *)
Fixpoint seg_texts (t prev : string) (segs : list segment) : list string :=
  match segs with
  | [] => []
  | (c, tg) :: r =>
      (if String.eqb tg (t +:+ "/") then [""]
       else if String.eqb tg ("/" +:+ t) && String.eqb prev t
            then [unescape c]
       else []) ++ seg_texts t tg r
  end.

Definition plain_segment (sg : segment) : Prop :=
  plain sg.1 = true ∧ plain sg.2 = true.

(** Text as it ends up in the parsed document. *)
Definition dom_text (s : string) : string := Text.universal_newlines s.

(** The segments of a leaf element at depth two. *)
Definition leaf_segs (t s : string) : list segment :=
  if decide (s = "") then [(DOM.newl +:+ "    ", t +:+ "/")]
  else [(DOM.newl +:+ "    ", t); (DOM.write_data (dom_text s), "/" +:+ t)].

(** The segments of one [<file>] record. *)
Definition record_segs (w : World) (p : Path) : list segment :=
  (DOM.newl +:+ "  ", "file") ::
  leaf_segs "filename" (PurePath.name p) ++
  leaf_segs "filepath" (PurePath.str (FS.resolve w p)) ++
  leaf_segs "contents" (contents_of w p) ++
  [(DOM.newl +:+ "  ", "/file")].

Definition declaration_tag : string :=
  "?xml version=" +:+ PyStr.chr 34 +:+ "1.0" +:+ PyStr.chr 34 +:+ " ?".

(** The segments of the whole document for the records of [files]. *)
Definition document_segs (w : World) (files : list Path) : list segment :=
  ("", declaration_tag) ::
  match files with
  | [] => [(DOM.newl, "codebase/")]
  | _ => (DOM.newl, "codebase") :: flat_map (record_segs w) files
         ++ [(DOM.newl, "/codebase")]
  end.

End Layout.

(** Does the text contain a carriage return? *)
Fixpoint has_carriage_return (s : string) : bool :=
  match s with
  | EmptyString => false
  | String c s' => bool_decide (c = Text.CR) || has_carriage_return s'
  end.

(** ** Sample worlds *)

Module Sample.

Definition plain_describe (e : exn) : string :=
  match e with
  | OSError ENOENT p => "[Errno 2] No such file or directory: " +:+ PurePath.str p
  | OSError ENOTDIR p => "[Errno 20] Not a directory: " +:+ PurePath.str p
  | OSError EISDIR p => "[Errno 21] Is a directory: " +:+ PurePath.str p
  | OSError EACCES p => "[Errno 13] Permission denied: " +:+ PurePath.str p
  | OSError EEXIST p => "[Errno 17] File exists: " +:+ PurePath.str p
  | UnicodeDecodeError _ => "'utf-8' codec can't decode"
  | UnicodeEncodeError _ => "'utf-8' codec can't encode"
  | ExpatError _ => "not well-formed (invalid token)"
  end.

Definition rel (l : list string) : Path := mkPath false l.
Definition abs (l : list string) : Path := mkPath true l.

(** /proj/src/a.py, /proj/src/B.JS, /proj/src/notes.txt,
    /proj/src/pkg.py/ (a directory), /proj/src/pkg.py/inner.ts,
    /proj/secret.py (unreadable), /proj/bin.py (not UTF-8);
    the process runs in /proj. *)
Definition w0 : World :=
  mkWorld
    [("proj", Dir
       [("src", Dir
          [("a.py", File true "print(1)");
           ("B.JS", File true "console.log(1)");
           ("notes.txt", File true "hello");
           ("pkg.py", Dir [("inner.ts", File true "let x = 1 < 2;")])]);
        ("secret.py", File false "x");
        ("bin.py", File true (String (ascii_of_nat 255) "abc"))])]
    ["proj"]
    plain_describe.

(** /proj/src/a.py alone. *)
Definition w1 : World :=
  mkWorld [("proj", Dir [("src", Dir [("a.py", File true "print(1)")])])]
          ["proj"] plain_describe.

(** Two lines with a DOS line end. *)
Definition two_lines_crlf : string :=
  "x = 1" +:+ PyStr.chr 13 +:+ PyStr.chr 10 +:+ "y = 2".

Definition two_lines_lf : string :=
  "x = 1" +:+ PyStr.chr 10 +:+ "y = 2".

(** /proj/dos.py, written with DOS line ends. *)
Definition w2 : World :=
  mkWorld [("proj", Dir [("dos.py", File true two_lines_crlf)])]
          ["proj"] plain_describe.

End Sample.

(** ** Further notions *)


(** A string [ET.tostring] can encode and the XML parser then accepts. *)
Definition serialisable (s : string) : bool :=
  Text.utf8_valid s && DOM.well_formed s.

(** More sample worlds. *)
Module Cases.

(** A form feed between two statements, as some editors leave it. *)
Definition paged : string := "x = 1" +:+ PyStr.chr 12 +:+ "y = 2".

(** /proj/ok.py and /proj/paged.py; the process runs in /proj. *)
Definition w3 : World :=
  mkWorld [("proj", Dir [("ok.py", File true "print(1)");
                         ("paged.py", File true paged)])]
          ["proj"] Sample.plain_describe.

End Cases.

(** * Properties *)

(** ** The directory scan *)





Lemma suffix_matches_extensions p :
  suffix_matches EXTENSIONS p = true ↔ has_source_extension (PurePath.name p).
Proof.
  unfold suffix_matches, has_source_extension, PurePath.suffix, EXTENSIONS.
  rewrite bool_decide_eq_true, !elem_of_union, !elem_of_singleton.
  rewrite !elem_of_cons, elem_of_nil. tauto.
Qed.



(** ** The explicit file list *)

Lemma collapse_no_dotdot acc cs :
  ".." ∉ acc → ".." ∉ FS.collapse acc cs.
Proof.
  revert acc. induction cs as [|c cs IH]; intros acc Hacc; simpl.
  - by rewrite list_elem_of_In, <- in_rev, <- list_elem_of_In.
  - case_decide.
    + apply IH. destruct acc as [|a acc]; [done|]. simpl.
      intros Hin. apply Hacc. by right.
    + apply IH. rewrite not_elem_of_cons. split; [congruence|done].
Qed.

Lemma resolve_resolved_form w p : resolved_form (FS.resolve w p).
Proof.
  split; [done|]. simpl. apply collapse_no_dotdot, not_elem_of_nil.
Qed.

(** The loop of [filter_files_by_extension], started from any state. *)
Lemma filter_files_fold w files kept log :
  fold_left (filter_files_step w EXTENSIONS) files (kept, log) =
  (kept ++ map (FS.resolve w)
     (filter (λ f, has_source_extension (PurePath.name f) ∧
                   FS.is_file w f = true) files),
   log ++ map skipped_warning
     (filter (λ f, has_source_extension (PurePath.name f) ∧
                   FS.is_file w f = false) files)).
Proof.
  revert kept log. induction files as [|f files IH]; intros kept log; simpl.
  - by rewrite !app_nil_r.
  - rewrite !filter_cons.
    destruct (suffix_matches EXTENSIONS f) eqn:Hm.
    + apply suffix_matches_extensions in Hm.
      destruct (FS.is_file w f) eqn:Hf; rewrite IH.
      * rewrite decide_True by done.
        rewrite decide_False by (intros [_ ?]; congruence).
        simpl. by rewrite <- app_assoc.
      * rewrite decide_False by (intros [_ ?]; congruence).
        rewrite decide_True by done.
        simpl. by rewrite <- app_assoc.
    + assert (¬ has_source_extension (PurePath.name f)) as Hn.
      { rewrite <- suffix_matches_extensions. congruence. }
      rewrite IH, !decide_False by (by intros [? _]). done.
Qed.


(** ** Building the document *)

Lemma map_last_snoc {A} (f : A → A) l x :
  ET.map_last f (l ++ [x]) = l ++ [f x].
Proof.
  induction l as [|y l IH]; [done|].
  simpl. rewrite IH. by destruct (l ++ [x]) eqn:E; [destruct l|].
Qed.

(** One turn of the loop attaches the finished record of the path. *)
Lemma create_xml_step_appends w root p :
  create_xml_step w root p = ET.append root (file_record w p).
Proof.
  unfold create_xml_step, ET.SubElement, ET.on_last, ET.append; simpl.
  rewrite !map_last_snoc. simpl.
  unfold file_record, contents_of, leaf, ET.set_text. simpl.
  by destruct (read_text w p).
Qed.

Lemma create_xml_fold w files root :
  fold_left (create_xml_step w) files root =
  mkElement (tag root) (attrib root) (text root)
            (children root ++ map (file_record w) files).
Proof.
  revert root. induction files as [|p files IH]; intros root; simpl.
  - rewrite app_nil_r. by destruct root.
  - rewrite IH, create_xml_step_appends. simpl. by rewrite <- app_assoc.
Qed.

Lemma create_xml_structure_records w files :
  create_xml_structure w files =
  mkElement "codebase" [] None (map (file_record w) (elements files)).
Proof.
  unfold create_xml_structure, create_xml_from_list.
  by rewrite create_xml_fold.
Qed.

Lemma forallb_map_true {A B} (f : B → bool) (g : A → B) l :
  (∀ x, f (g x) = true) → forallb f (map g l) = true.
Proof. intros H. induction l; simpl; [done|]. by rewrite H, IHl. Qed.

(** C9. The document built for a set of paths is a single [codebase] root
    whose children are one [file] element per path of the set (no path
    twice); each [file] element has exactly the children [filename],
    [filepath], [contents], in this order, each holding text only; no
    element has an attribute; [filename] holds the last component of the
    path and [filepath] its resolved absolute form. *)
Theorem document_shape w files :
  create_xml_structure w files =
    mkElement "codebase" [] None
      (map (λ p, mkElement "file" [] None
                   [mkElement "filename" [] (Some (PurePath.name p)) [];
                    mkElement "filepath" []
                      (Some (PurePath.str (FS.resolve w p))) [];
                    mkElement "contents" [] (Some (contents_of w p)) []])
           (elements files))
  ∧ NoDup (elements files)
  ∧ length (children (create_xml_structure w files)) = size files
  ∧ attribute_free (create_xml_structure w files) = true
  ∧ ∀ p, resolved_form (FS.resolve w p).
Proof.
  rewrite create_xml_structure_records. split_and!.
  - done.
  - apply NoDup_elements.
  - simpl. by rewrite length_map.
  - simpl. by apply forallb_map_true.
  - apply resolve_resolved_form.
Qed.

Lemma field_contents_file_record w p :
  field "contents" (file_record w p) = Some (contents_of w p).
Proof. done. Qed.

(** C3. When reading a collected path raises, its record's [contents] is
    the text [Error reading file: ] followed by the description of the
    error; the document still has one record per collected path, and the
    record of every path is the one it gets when it is the only path
    processed. *)
Theorem read_error_is_embedded w files p e :
  p ∈ files → read_text w p = Raise e →
  length (children (create_xml_structure w files)) = size files ∧
  (∃ i rec, elements files !! i = Some p ∧
            children (create_xml_structure w files) !! i = Some rec ∧
            field "contents" rec
              = Some ("Error reading file: " +:+ describe w e)) ∧
  (∀ j q, elements files !! j = Some q →
          is_Some (children (create_xml_structure w files) !! j) ∧
          children (create_xml_structure w files) !! j
            = children (create_xml_structure w {[q]}) !! 0).
Proof.
  intros Hp He. rewrite create_xml_structure_records. simpl. split_and!.
  - by rewrite length_map.
  - apply elem_of_elements, list_elem_of_lookup in Hp as [i Hi].
    exists i, (file_record w p). split_and!; [done|..].
    + by rewrite list_lookup_fmap, Hi.
    + rewrite field_contents_file_record. unfold contents_of. by rewrite He.
  - intros j q Hj. rewrite create_xml_structure_records, elements_singleton.
    rewrite list_lookup_fmap, Hj. simpl. by split; [eexists|].
Qed.

(** An unreadable file and a file that is not UTF-8, next to a good one. *)
Lemma read_error_is_embedded_witness :
  let files : gset Path :=
    {[ Sample.rel ["secret.py"]; Sample.rel ["bin.py"];
       Sample.rel ["src"; "a.py"] ]} in
  ∃ i rec,
    elements files !! i = Some (Sample.rel ["secret.py"]) ∧
    children (create_xml_structure Sample.w0 files) !! i = Some rec ∧
    field "contents" rec
      = Some "Error reading file: [Errno 13] Permission denied: secret.py".
Proof.
  intros files.
  refine (proj1 (proj2 (read_error_is_embedded Sample.w0 files
            (Sample.rel ["secret.py"])
            (OSError EACCES (Sample.rel ["secret.py"])) _ _))).
  - vm_compute. tauto.
  - reflexivity.
Defined.

(** ** The program as a whole *)

Lemma parse_arguments_accepts args :
  truthy_path (input_dir args) || truthy_list (file args) = true →
  parse_arguments (Parsed args) = inr args.
Proof.
  unfold parse_arguments.
  by destruct (truthy_path (input_dir args)), (truthy_list (file args)).
Qed.



Lemma main_body_empty w args :
  (collect w args).1 = ∅ →
  main_body w args =
    mkRun Returned w ((collect w args).2 ++ [Log WARNING NoFilesToProcess]).
Proof.
  intros He. unfold main_body. destruct (collect w args) as [files log].
  simpl in He. subst files. by rewrite decide_True.
Qed.

(** C7. When the arguments are accepted and the combined set of collected
    paths is empty, the program logs the warning, returns normally (exit
    status 0) and leaves the file system as it was: no output file is
    created. *)
Theorem nothing_to_process w args :
  parse_arguments (Parsed args) = inr args →
  (collect w args).1 = ∅ →
  run_outcome (main w (Parsed args)) = Returned ∧
  exit_code (run_outcome (main w (Parsed args))) = 0%Z ∧
  run_world (main w (Parsed args)) = w ∧
  run_stderr (main w (Parsed args)) =
    (collect w args).2 ++ [Log WARNING NoFilesToProcess].
Proof.
  intros Hargs He. unfold main. rewrite Hargs, main_body_empty by done.
  by split_and!.
Qed.

(** A missing directory and a listed file without a source extension. *)
Lemma nothing_to_process_witness :
  run_stderr (main Sample.w0
    (Parsed (mkNamespace (Some (Sample.rel ["nowhere"]))
                         (Some [Sample.rel ["src"; "notes.txt"]])
                         (Sample.rel ["out.xml"])))) =
  [Log INFO (ScanningDirectory (Sample.rel ["nowhere"]));
   Log INFO (FoundInDirectory 0);
   Log INFO (AddingIndividualFiles 0);
   Log INFO (TotalUniqueFiles 0)] ++ [Log WARNING NoFilesToProcess].
Proof.
  refine (proj2 (proj2 (proj2 (nothing_to_process Sample.w0
    (mkNamespace (Some (Sample.rel ["nowhere"]))
                 (Some [Sample.rel ["src"; "notes.txt"]])
                 (Sample.rel ["out.xml"])) eq_refl _)))).
  reflexivity.
Defined.




Lemma collect_nonempty_accepts w args :
  (collect w args).1 ≠ ∅ → parse_arguments (Parsed args) = inr args.
Proof.
  intros Hne. apply parse_arguments_accepts.
  destruct (truthy_path (input_dir args)) eqn:Hd; [done|].
  destruct (truthy_list (file args)) eqn:Hf; [done|].
  exfalso. apply Hne. unfold collect. rewrite Hf.
  by destruct (input_dir args).
Qed.

(** ** Reading a rendered document back *)

Lemma string_app_cons c s t : String c s +:+ t = String c (s +:+ t).
Proof. reflexivity. Qed.

Lemma string_app_nil_r s : s +:+ "" = s.
Proof. induction s as [|c s IH]; [done|]. by rewrite string_app_cons, IH. Qed.

Lemma string_app_assoc a b c : (a +:+ b) +:+ c = a +:+ (b +:+ c).
Proof.
  induction a as [|x a IH]; [done|]. by rewrite !string_app_cons, IH.
Qed.

Lemma plain_cons c s :
  Layout.plain (String c s) = true →
  c ≠ "<"%char ∧ c ≠ ">"%char ∧ Layout.plain s = true.
Proof.
  simpl. rewrite !andb_true_iff, !negb_true_iff, !bool_decide_eq_false. tauto.
Qed.

Lemma plain_app a b :
  Layout.plain a = true → Layout.plain b = true → Layout.plain (a +:+ b) = true.
Proof.
  intros Ha Hb. induction a as [|c a IH]; [done|].
  rewrite string_app_cons. simpl in *.
  apply andb_true_iff in Ha as [-> Ha]. by rewrite IH.
Qed.

(** The inside of a tag, read from the right, up to its opening bracket. *)
Lemma pieces_partial t rest :
  Layout.plain t = true →
  XmlRead.pieces (t +:+ String ">" rest)
    = XmlRead.Partial t :: XmlRead.pieces rest.
Proof.
  induction t as [|c t IH]; intros Hp; [done|].
  apply plain_cons in Hp as (Hlt & Hgt & Hp).
  rewrite string_app_cons. simpl. rewrite IH by done.
  unfold XmlRead.cons_piece. by rewrite !decide_False.
Qed.

(** Character data followed by a tag is split into just these two. *)
Lemma pieces_segment c t rest :
  Layout.plain c = true → Layout.plain t = true →
  XmlRead.pieces (c +:+ "<" +:+ t +:+ ">" +:+ rest)
    = Layout.seg_pieces (c, t) ++ XmlRead.pieces rest.
Proof.
  intros Hc Ht. unfold Layout.seg_pieces. simpl.
  induction c as [|a c IH].
  - change (XmlRead.pieces ("" +:+ "<" +:+ t +:+ ">" +:+ rest))
      with (XmlRead.cons_piece "<" (XmlRead.pieces (t +:+ String ">" rest))).
    by rewrite pieces_partial.
  - apply plain_cons in Hc as (Hlt & Hgt & Hc).
    rewrite string_app_cons. simpl. rewrite IH by done.
    unfold XmlRead.cons_piece, Layout.chars.
    rewrite !decide_False by done.
    by destruct (decide (c = "")) as [->|].
Qed.

Lemma pieces_plain s :
  Layout.plain s = true → XmlRead.pieces s = Layout.chars s.
Proof.
  induction s as [|a s IH]; intros Hp; [done|].
  apply plain_cons in Hp as (Hlt & Hgt & Hp).
  simpl. rewrite IH by done.
  unfold XmlRead.cons_piece, Layout.chars.
  rewrite !decide_False by done.
  by destruct (decide (s = "")) as [->|].
Qed.

(** Splitting the text of a list of segments gives the segments back. *)
Lemma pieces_unsegs segs tail :
  Forall Layout.plain_segment segs → Layout.plain tail = true →
  XmlRead.pieces (Layout.unsegs segs tail)
    = flat_map Layout.seg_pieces segs ++ Layout.chars tail.
Proof.
  intros Hs Ht. induction Hs as [|[c t] segs [Hc Htag] _ IH]; simpl.
  - by apply pieces_plain.
  - rewrite pieces_segment by done. by rewrite IH, <- app_assoc.
Qed.

Lemma texts_from_segs t prev segs tail :
  XmlRead.texts_from t prev ""
    (flat_map Layout.seg_pieces segs ++ Layout.chars tail)
  = Layout.seg_texts t prev segs.
Proof.
  revert prev. induction segs as [|[c tg] segs IH]; intros prev; simpl.
  - unfold Layout.chars. by case_decide.
  - unfold Layout.seg_pieces, Layout.chars. simpl.
    destruct (decide (c = "")) as [->|]; simpl; by rewrite IH.
Qed.

(** The element texts of a document given by its segments. *)
Lemma element_texts_unsegs t segs tail :
  Forall Layout.plain_segment segs → Layout.plain tail = true →
  XmlRead.element_texts t (Layout.unsegs segs tail)
    = Layout.seg_texts t "" segs.
Proof.
  intros Hs Ht. unfold XmlRead.element_texts.
  by rewrite pieces_unsegs, texts_from_segs.
Qed.

Lemma unescape_other c s :
  c ≠ "&"%char →
  XmlRead.unescape (String c s) = String c (XmlRead.unescape s).
Proof.
  intros Hc. destruct c as [[] [] [] [] [] [] [] []]; try reflexivity.
  by destruct Hc.
Qed.

(** Replacing the entities undoes the escaping of the writer. *)
Lemma unescape_write_data s : XmlRead.unescape (DOM.write_data s) = s.
Proof.
  induction s as [|c s IH]; [done|]. simpl. unfold DOM.escape_char.
  repeat case_decide; subst.
  - change (XmlRead.unescape ("&amp;" +:+ DOM.write_data s))
      with (String "&" (XmlRead.unescape (DOM.write_data s))).
    by rewrite IH.
  - change (XmlRead.unescape ("&lt;" +:+ DOM.write_data s))
      with (String "<" (XmlRead.unescape (DOM.write_data s))).
    by rewrite IH.
  - change (XmlRead.unescape ("&quot;" +:+ DOM.write_data s))
      with (String (ascii_of_nat 34) (XmlRead.unescape (DOM.write_data s))).
    by rewrite IH.
  - change (XmlRead.unescape ("&gt;" +:+ DOM.write_data s))
      with (String ">" (XmlRead.unescape (DOM.write_data s))).
    by rewrite IH.
  - rewrite string_app_cons. change ("" +:+ ?x) with x.
    by rewrite unescape_other, IH.
Qed.

(** Escaped text has no angle bracket left. *)
Lemma plain_write_data s : Layout.plain (DOM.write_data s) = true.
Proof.
  induction s as [|c s IH]; [done|]. simpl. apply plain_app; [|done].
  unfold DOM.escape_char. repeat case_decide; try done.
  simpl. by rewrite !bool_decide_eq_false_2.
Qed.

(** ** The rendered document, segment by segment *)

Lemma unsegs_app a b tail :
  Layout.unsegs (a ++ b) tail = Layout.unsegs a (Layout.unsegs b tail).
Proof.
  induction a as [|[c t] a IH]; [done|]. simpl. by rewrite IH.
Qed.

Ltac string_normalise :=
  rewrite ?string_app_assoc; reflexivity.

Lemma render_leaf t s rest :
  DOM.newl +:+ DOM.writexml "    " "  " (DOM.to_dom (leaf t s)) +:+ rest
  = Layout.unsegs (Layout.leaf_segs t s) (DOM.newl +:+ rest).
Proof.
  unfold leaf, Layout.leaf_segs, Layout.dom_text. cbn [DOM.to_dom].
  destruct (decide (s = "")) as [->|Hs]; cbn; string_normalise.
Qed.

Lemma render_record w p rest :
  DOM.newl +:+ DOM.writexml "  " "  " (DOM.to_dom (file_record w p)) +:+ rest
  = Layout.unsegs (Layout.record_segs w p) (DOM.newl +:+ rest).
Proof.
  unfold Layout.record_segs.
  change (Layout.unsegs (?sg :: ?l) ?tl)
    with (sg.1 +:+ "<" +:+ sg.2 +:+ ">" +:+ Layout.unsegs l tl).
  rewrite !unsegs_app.
  change (Layout.unsegs [(DOM.newl +:+ "  ", "/file")] (DOM.newl +:+ rest))
    with (DOM.newl +:+ "  </file>" +:+ DOM.newl +:+ rest).
  rewrite <- !render_leaf.
  change (DOM.writexml "  " "  " (DOM.to_dom (file_record w p)))
    with ("  <file>" +:+ DOM.newl +:+
          (DOM.writexml "    " "  "
             (DOM.to_dom (leaf "filename" (PurePath.name p)))
           +:+ DOM.writexml "    " "  "
                 (DOM.to_dom (leaf "filepath" (PurePath.str (FS.resolve w p))))
           +:+ DOM.writexml "    " "  "
                 (DOM.to_dom (leaf "contents" (contents_of w p)))
           +:+ "")
          +:+ "  </file>" +:+ DOM.newl).
  cbn [fst snd Layout.unsegs]. string_normalise.
Qed.

Lemma render_records w files rest :
  DOM.newl +:+
    DOM.concat (map (DOM.writexml "  " "  ")
                    (map DOM.to_dom (map (file_record w) files))) +:+ rest
  = Layout.unsegs (flat_map (Layout.record_segs w) files) (DOM.newl +:+ rest).
Proof.
  induction files as [|p files IH]; [done|].
  cbn [map flat_map DOM.concat foldr].
  rewrite unsegs_app, <- IH, <- render_record. string_normalise.
Qed.

(** The pretty-printed text of a document is the text of its segments. *)
Lemma render_document w files :
  DOM.toprettyxml "  "
    (DOM.to_dom (mkElement "codebase" [] None (map (file_record w) files)))
  = Layout.unsegs (Layout.document_segs w files) DOM.newl.
Proof.
  destruct files as [|p files]; [done|].
  unfold Layout.document_segs. cbn [Layout.unsegs].
  rewrite unsegs_app.
  change (Layout.unsegs [(DOM.newl, "/codebase")] DOM.newl)
    with (DOM.newl +:+ "</codebase>" +:+ DOM.newl).
  rewrite <- render_records. reflexivity.
Qed.

Lemma plain_leaf_segs t s :
  Layout.plain t = true → Forall Layout.plain_segment (Layout.leaf_segs t s).
Proof.
  intros Ht. unfold Layout.leaf_segs, Layout.plain_segment.
  case_decide; repeat constructor; simpl; try done.
  - by apply plain_app.
  - apply plain_write_data.
Qed.

Lemma plain_record_segs w p :
  Forall Layout.plain_segment (Layout.record_segs w p).
Proof.
  unfold Layout.record_segs.
  apply Forall_cons. split; [by split|].
  do 3 (apply Forall_app; split; [by apply plain_leaf_segs|]).
  apply Forall_cons. split; [by split|]. constructor.
Qed.

Lemma plain_document_segs w files :
  Forall Layout.plain_segment (Layout.document_segs w files).
Proof.
  unfold Layout.document_segs. apply Forall_cons. split; [by split|].
  destruct files as [|p files]; [by repeat constructor|].
  apply Forall_cons. split; [by split|].
  apply Forall_app. split; [|by repeat constructor].
  generalize (p :: files). intros l.
  induction l as [|q l IH]; cbn [flat_map]; [constructor|].
  apply Forall_app. split; [apply plain_record_segs|done].
Qed.

(** Reading one field off the segments of a record. *)
Ltac read_record_field :=
  intros;
  unfold Layout.record_segs, Layout.leaf_segs;
  repeat match goal with
         | |- context [decide (?s = "")] =>
             let E := fresh "E" in destruct (decide (s = "")) as [E|E]
         end;
  first [ reflexivity
        | match goal with
          | E : ?s = "" |- _ => rewrite E; reflexivity
          end ].

Lemma seg_texts_record_contents w p prev r :
  Layout.seg_texts "contents" prev (Layout.record_segs w p ++ r)
  = XmlRead.unescape (DOM.write_data (Layout.dom_text (contents_of w p)))
    :: Layout.seg_texts "contents" "/file" r.
Proof. read_record_field. Qed.

Lemma seg_texts_record_filepath w p prev r :
  Layout.seg_texts "filepath" prev (Layout.record_segs w p ++ r)
  = XmlRead.unescape
      (DOM.write_data (Layout.dom_text (PurePath.str (FS.resolve w p))))
    :: Layout.seg_texts "filepath" "/file" r.
Proof. read_record_field. Qed.

Lemma seg_texts_records_contents w files prev r :
  Layout.seg_texts "contents" prev (flat_map (Layout.record_segs w) files ++ r)
  = map (λ p, Layout.dom_text (contents_of w p)) files
    ++ Layout.seg_texts "contents"
         (match files with [] => prev | _ => "/file" end) r.
Proof.
  revert prev. induction files as [|p files IH]; intros prev; [done|].
  cbn [flat_map map]. rewrite <- app_assoc, seg_texts_record_contents, IH.
  rewrite unescape_write_data. simpl. do 2 f_equal. by destruct files.
Qed.

Lemma seg_texts_records_filepath w files prev r :
  Layout.seg_texts "filepath" prev (flat_map (Layout.record_segs w) files ++ r)
  = map (λ p, Layout.dom_text (PurePath.str (FS.resolve w p))) files
    ++ Layout.seg_texts "filepath"
         (match files with [] => prev | _ => "/file" end) r.
Proof.
  revert prev. induction files as [|p files IH]; intros prev; [done|].
  cbn [flat_map map]. rewrite <- app_assoc, seg_texts_record_filepath, IH.
  rewrite unescape_write_data. simpl. do 2 f_equal. by destruct files.
Qed.

Lemma seg_texts_document_contents w files :
  Layout.seg_texts "contents" "" (Layout.document_segs w files)
  = map (λ p, Layout.dom_text (contents_of w p)) files.
Proof.
  destruct files as [|p files]; [done|].
  unfold Layout.document_segs.
  change (Layout.seg_texts "contents" "" (?a :: ?b :: ?l))
    with (Layout.seg_texts "contents" "codebase" l).
  rewrite seg_texts_records_contents. apply app_nil_r.
Qed.

Lemma seg_texts_document_filepath w files :
  Layout.seg_texts "filepath" "" (Layout.document_segs w files)
  = map (λ p, Layout.dom_text (PurePath.str (FS.resolve w p))) files.
Proof.
  destruct files as [|p files]; [done|].
  unfold Layout.document_segs.
  change (Layout.seg_texts "filepath" "" (?a :: ?b :: ?l))
    with (Layout.seg_texts "filepath" "codebase" l).
  rewrite seg_texts_records_filepath. apply app_nil_r.
Qed.

Lemma prettify_xml_inv elem doc :
  prettify_xml elem = Ok doc → doc = DOM.toprettyxml "  " (DOM.to_dom elem).
Proof.
  unfold prettify_xml, DOM.parseString_tostring.
  repeat case_match; naive_solver.
Qed.

(** What can be read back from the pretty-printed document: the
    [contents] texts and the [filepath] texts of the records, in the
    iteration order of the set, each as stored in the tree with its line
    ends normalised by the parser. *)
Lemma document_texts w files doc :
  prettify_xml (create_xml_structure w files) = Ok doc →
  XmlRead.element_texts "contents" doc
    = map (λ p, Layout.dom_text (contents_of w p)) (elements files) ∧
  XmlRead.element_texts "filepath" doc
    = map (λ p, Layout.dom_text (PurePath.str (FS.resolve w p)))
          (elements files).
Proof.
  intros ->%prettify_xml_inv.
  rewrite create_xml_structure_records, render_document.
  rewrite !element_texts_unsegs by (done || apply plain_document_segs).
  by rewrite seg_texts_document_contents, seg_texts_document_filepath.
Qed.

(** ** Newline translation *)

Lemma universal_newlines_no_cr_aux s :
  has_carriage_return (Text.universal_newlines s) = false ∧
  ∀ c, has_carriage_return (Text.universal_newlines (String c s)) = false.
Proof.
  induction s as [|a s [IH1 IH2]].
  - split; [done|]. intros c. simpl.
    case_decide; simpl; [done|]. by rewrite bool_decide_eq_false_2.
  - split; [apply IH2|]. intros c.
    change (Text.universal_newlines (String c (String a s)))
      with (if decide (c = Text.CR)
            then if decide (a = Text.LF)
                 then String Text.LF (Text.universal_newlines s)
                 else String Text.LF (Text.universal_newlines (String a s))
            else String c (Text.universal_newlines (String a s))).
    repeat case_decide; cbn [has_carriage_return];
      rewrite ?IH1, ?IH2, ?orb_false_r; try done;
      by rewrite bool_decide_eq_false_2.
Qed.

(** After the translation no carriage return is left. *)
Lemma universal_newlines_no_cr s :
  has_carriage_return (Text.universal_newlines s) = false.
Proof. apply universal_newlines_no_cr_aux. Qed.

(** Text without a carriage return is left alone. *)
Lemma universal_newlines_id s :
  has_carriage_return s = false → Text.universal_newlines s = s.
Proof.
  induction s as [|c s IH]; [done|]. simpl.
  intros [Hc Hs]%orb_false_iff. apply bool_decide_eq_false in Hc.
  rewrite decide_False by done. by rewrite IH.
Qed.

Lemma universal_newlines_idem s :
  Text.universal_newlines (Text.universal_newlines s)
  = Text.universal_newlines s.
Proof. apply universal_newlines_id, universal_newlines_no_cr. Qed.

(** ** Reading back what was written *)

Lemma descend_snoc t names c :
  descend t (names ++ [c]) =
  match descend t names with
  | Some (Dir es) => FS.find_entry c es
  | _ => None
  end.
Proof.
  revert t. induction names as [|k names IH]; intros t; simpl.
  - destruct t as [|es]; [done|]. by destruct (FS.find_entry c es).
  - destruct t as [|es]; [done|]. destruct (FS.find_entry k es); [apply IH|done].
Qed.

Lemma collapse_snoc acc cs c :
  c ≠ ".." → FS.collapse acc (cs ++ [c]) = FS.collapse acc cs ++ [c].
Proof.
  intros Hc. revert acc. induction cs as [|k cs IH]; intros acc; simpl.
  - by rewrite decide_False.
  - case_decide; apply IH.
Qed.

(** A walk ends at the node that stands at its collapsed position. *)
Lemma walk_descend t racc up cur cs m :
  descend t (rev racc) = Some cur → ancestors_at t racc up →
  FS.walk up cur cs = inr m →
  descend t (FS.collapse racc cs) = Some m.
Proof.
  revert racc up cur. induction cs as [|c cs IH]; intros racc up cur Hcur Hup.
  - simpl. by intros [= <-].
  - simpl. destruct cur as [|es]; [done|]. case_decide as Hc.
    + destruct up as [|u up], racc as [|a racc]; try done.
      * by apply IH.
      * destruct Hup as (Hu & _ & Hup). by apply IH.
    + destruct (FS.find_entry c es) as [n|] eqn:Hn; [|done].
      apply IH.
      * simpl. by rewrite descend_snoc, Hcur.
      * simpl. by split_and!.
Qed.

Lemma walk_snoc up cur cs c :
  c ≠ ".." →
  FS.walk up cur (cs ++ [c]) =
  match FS.walk up cur cs with
  | inl e => inl e
  | inr (File _ _) => inl ENOTDIR
  | inr (Dir es) =>
      match FS.find_entry c es with
      | Some n => inr n
      | None => inl ENOENT
      end
  end.
Proof.
  intros Hc. revert up cur. induction cs as [|k cs IH]; intros up cur; simpl.
  - destruct cur as [|es]; [done|]. rewrite decide_False by done.
    by destruct (FS.find_entry c es).
  - destruct cur as [|es]; [done|]. case_decide.
    + destruct up; apply IH.
    + destruct (FS.find_entry k es); [apply IH|done].
Qed.

(** Stepping up from a directory always succeeds, and ends in a
    directory. *)
Lemma walk_snoc_dotdot up cur cs es :
  Forall is_directory up →
  FS.walk up cur cs = inr (Dir es) →
  ∃ es', FS.walk up cur (cs ++ [".."]) = inr (Dir es').
Proof.
  revert up cur. induction cs as [|k cs IH]; intros up cur Hup; simpl.
  - intros [= ->]. destruct up as [|[|es'] up]; [by eexists| |by eexists].
    by apply Forall_cons in Hup as [[] _].
  - destruct cur as [|es0]; [done|]. case_decide.
    + destruct up as [|u up]; [by apply IH|].
      apply IH. by apply Forall_cons in Hup as [_ ?].
    + destruct (FS.find_entry k es0); [|done].
      apply IH. by apply Forall_cons.
Qed.

Lemma walk_dotdot_directory up cur cs m :
  Forall is_directory up →
  FS.walk up cur (cs ++ [".."]) = inr m → is_directory m.
Proof.
  revert up cur. induction cs as [|k cs IH]; intros up cur Hup; simpl.
  - destruct cur as [|es]; [done|].
    destruct up as [|u up]; intros [= <-]; [done|].
    by apply Forall_cons in Hup as [? _].
  - destruct cur as [|es0]; [done|]. case_decide.
    + destruct up as [|u up]; [by apply IH|].
      apply IH. by apply Forall_cons in Hup as [_ ?].
    + destruct (FS.find_entry k es0); [|done].
      apply IH. by apply Forall_cons.
Qed.

Lemma find_entry_set_entry k c n es :
  FS.find_entry k (FSWrite.set_entry c n es)
  = if decide (c = k) then Some n else FS.find_entry k es.
Proof.
  induction es as [|[a m] es IH]; simpl.
  - done.
  - destruct (decide (a = c)) as [->|Hac]; simpl.
    + by case_decide.
    + rewrite IH. repeat case_decide; congruence.
Qed.

Lemma put_cons a rest n es :
  rest ≠ [] →
  FSWrite.put (a :: rest) n es =
  match FS.find_entry a es with
  | Some (Dir sub) => FSWrite.set_entry a (Dir (FSWrite.put rest n sub)) es
  | _ => es
  end.
Proof. by destruct rest. Qed.

(** Putting a node at [parent ++ [c]], where the old tree has nothing or a
    regular file, keeps every directory of the old tree a directory with at
    least the old names, and makes [c] name the new node in the parent. *)
Lemma put_keeps_directories parent c n es sub :
  descend (Dir es) parent = Some (Dir sub) →
  (∀ es_c, FS.find_entry c sub ≠ Some (Dir es_c)) →
  ∀ pos es_x, descend (Dir es) pos = Some (Dir es_x) →
    ∃ es_y,
      descend (Dir (FSWrite.put (parent ++ [c]) n es)) pos = Some (Dir es_y) ∧
      (∀ k, is_Some (FS.find_entry k es_x) → is_Some (FS.find_entry k es_y)) ∧
      (pos = parent → FS.find_entry c es_y = Some n).
Proof.
  revert es. induction parent as [|a parent IH]; intros es Hpar Hold pos es_x Hpos.
  - simpl in Hpar. injection Hpar as ->. simpl.
    destruct pos as [|k pos].
    + simpl in Hpos. injection Hpos as <-. eexists. split; [done|]. split.
      * intros k Hk. rewrite find_entry_set_entry. by case_decide.
      * intros _. rewrite find_entry_set_entry. by rewrite decide_True.
    + simpl in *. rewrite find_entry_set_entry.
      destruct (decide (c = k)) as [->|Hck].
      * destruct (FS.find_entry k sub) as [[|es_k]|] eqn:Hk; [|by destruct (Hold es_k)|done].
        by destruct pos.
      * destruct (FS.find_entry k sub) as [m|]; [|done].
        exists es_x. by split_and!.
  - simpl in Hpar.
    destruct (FS.find_entry a es) as [[|sub_a]|] eqn:Ha; try done.
    { by destruct parent. }
    rewrite <- app_comm_cons, put_cons, Ha by by destruct parent.
    destruct pos as [|k pos].
    + simpl in Hpos. injection Hpos as <-. eexists. split; [done|]. split; [|done].
      intros k Hk. rewrite find_entry_set_entry. by case_decide.
    + simpl in *. rewrite find_entry_set_entry.
      destruct (decide (a = k)) as [->|Hak].
      * rewrite Ha in Hpos.
        destruct (IH sub_a Hpar Hold pos es_x Hpos) as (es_y & Hy & Hkeep & Hc).
        exists es_y. split_and!; [done..|]. intros [= ->]. by apply Hc.
      * destruct (FS.find_entry k es) as [m|]; [|done].
        exists es_x. split_and!; [done..|]. by intros [= ? _].
Qed.

(** A walk that succeeds in one tree succeeds in any tree that keeps the
    directories of the first, and ends at the node standing at the same
    position. *)
Lemma walk_in_larger_tree t t' racc up up' cur cur' cs m :
  (∀ pos es_x, descend t pos = Some (Dir es_x) →
     ∃ es_y, descend t' pos = Some (Dir es_y) ∧
       ∀ k, is_Some (FS.find_entry k es_x) → is_Some (FS.find_entry k es_y)) →
  descend t (rev racc) = Some cur → ancestors_at t racc up →
  descend t' (rev racc) = Some cur' → ancestors_at t' racc up' →
  FS.walk up cur cs = inr m →
  ∃ m', FS.walk up' cur' cs = inr m' ∧
        descend t' (FS.collapse racc cs) = Some m'.
Proof.
  intros Hkeep. revert racc up up' cur cur'.
  induction cs as [|c cs IH]; intros racc up up' cur cur' Hcur Hup Hcur' Hup'.
  - intros _. by exists cur'.
  - simpl. destruct cur as [|es]; [done|].
    destruct (Hkeep _ _ Hcur) as (es' & Hes' & Hnames).
    rewrite Hcur' in Hes'. injection Hes' as ->.
    case_decide as Hc.
    + destruct racc as [|a racc], up as [|u up], up' as [|u' up']; try done.
      * by apply IH.
      * destruct Hup as (Hu & _ & Hup), Hup' as (Hu' & _ & Hup').
        by apply IH.
    + destruct (FS.find_entry c es) as [n|] eqn:Hn; [|done].
      destruct (Hnames c) as [n' Hn']; [by eexists|]. rewrite Hn'.
      apply IH; simpl; rewrite ?descend_snoc, ?Hcur, ?Hcur'; by split_and?.
Qed.

Lemma walk_after_put es cs0 c n sub :
  c ≠ ".." →
  FS.walk [] (Dir es) cs0 = inr (Dir sub) →
  (∀ es_c, FS.find_entry c sub ≠ Some (Dir es_c)) →
  FS.walk [] (Dir (FSWrite.put (FS.collapse [] (cs0 ++ [c])) n es))
          (cs0 ++ [c]) = inr n.
Proof.
  intros Hc Hwalk Hold. rewrite collapse_snoc by done.
  pose proof (walk_descend (Dir es) [] [] _ _ _ eq_refl I Hwalk) as Hpar.
  pose proof (put_keeps_directories _ c n es sub Hpar Hold) as Hkeep.
  destruct (walk_in_larger_tree (Dir es)
              (Dir (FSWrite.put (FS.collapse [] cs0 ++ [c]) n es))
              [] [] [] (Dir es)
              (Dir (FSWrite.put (FS.collapse [] cs0 ++ [c]) n es))
              cs0 (Dir sub))
    as (m' & Hwalk' & Hm'); try done.
  { intros pos es_x Hpos. destruct (Hkeep pos es_x Hpos) as (es_y & ? & ? & _).
    by exists es_y. }
  destruct (Hkeep _ _ Hpar) as (es_y & Hy & _ & Hn).
  rewrite Hy in Hm'. injection Hm' as <-.
  rewrite walk_snoc, Hwalk' by done. by rewrite Hn.
Qed.

(** After a successful [write_text], the path names a regular file holding
    exactly the text written. *)
Lemma write_text_then_stat w p data w' :
  FSWrite.write_text w p data = Ok w' →
  ∃ r, FS.stat w' p = inr (File r data).
Proof.
  unfold FSWrite.write_text, FSWrite.location, FS.stat.
  assert (∀ n, FS.absolute_parts (with_root w n) p = FS.absolute_parts w p)
    as Habs by done.
  destruct (FS.walk [] (Dir (root w)) (FS.absolute_parts w p))
    as [e|[r old|es_p]] eqn:Hp; [| |done].
  - (* the path names nothing yet *)
    destruct (FS.walk [] (Dir (root w))
                (FS.absolute_parts w (PurePath.parent p)))
      as [e'|[|sub]] eqn:Hpar; try done.
    intros [= <-]. exists true. rewrite Habs. simpl.
    destruct p as [ab ps]. unfold FS.absolute_parts, PurePath.parent in *.
    simpl in *. destruct ps as [|c ps _] using rev_ind.
    { simpl in Hpar. congruence. }
    rewrite removelast_last in Hpar.
    set (cs0 := if ab then ps else cwd w ++ ps) in *.
    assert ((if ab then ps ++ [c] else cwd w ++ ps ++ [c]) = cs0 ++ [c]) as Hcs.
    { unfold cs0. destruct ab; [done|]. by rewrite app_assoc. }
    rewrite Hcs in *. destruct (decide (c = "..")) as [->|Hc].
    { destruct (walk_snoc_dotdot [] (Dir (root w)) cs0 sub) as [? Hw];
        [done..|]. congruence. }
    apply walk_after_put with (sub := sub); [done..|].
    intros es_c Hes. rewrite walk_snoc, Hpar, Hes in Hp by done. done.
  - (* the path names a regular file *)
    intros [= <-]. exists r. rewrite Habs. simpl.
    destruct (FS.absolute_parts w p) as [|c cs0 _] using rev_ind; [done|].
    destruct (decide (c = "..")) as [->|Hc].
    { by destruct (walk_dotdot_directory [] (Dir (root w)) cs0 (File r old)
                     (Forall_nil_2 _) Hp). }
    rewrite walk_snoc in Hp by done.
    destruct (FS.walk [] (Dir (root w)) cs0) as [|[|sub]] eqn:Hpar; try done.
    apply walk_after_put with (sub := sub); [done..|].
    intros es_c Hes. by rewrite Hes in Hp.
Qed.

(** ** The contents of the written document *)

(** A run that ends with the completion message has rendered the document
    of the collected set and written exactly that text: afterwards the
    output path names a regular file holding it. *)
Lemma main_write_inv w args :
  last (run_stderr (main w (Parsed args)))
    = Some (Log INFO XmlFileCreationComplete) →
  ∃ doc r,
    prettify_xml (create_xml_structure w (collect w args).1) = Ok doc ∧
    FS.stat (run_world (main w (Parsed args))) (output_file args)
      = inr (File r doc).
Proof.
  unfold main. destruct (parse_arguments (Parsed args)) as [[st pr]|a] eqn:Hp.
  { unfold parse_arguments in Hp. by case_match; simplify_eq. }
  assert (a = args) as ->.
  { unfold parse_arguments in Hp. by case_match; simplify_eq. }
  unfold main_body. destruct (collect w args) as [files log].
  cbn [fst]. case_decide.
  { cbn [run_stderr]. by rewrite last_snoc. }
  destruct (prettify_xml _) as [doc|e].
  2:{ cbn [run_stderr]. by rewrite last_snoc. }
  destruct (ensure_output_dir _ _) as [w1 [l|e]].
  2:{ cbn [run_stderr]. by rewrite last_snoc. }
  destruct (FSWrite.write_text _ _ _) as [w2|e] eqn:Hw.
  2:{ cbn [run_stderr]. by rewrite last_snoc. }
  intros _. apply write_text_then_stat in Hw as [r Hr].
  by exists doc, r.
Qed.

Lemma read_text_contents w p data :
  FS.stat w p = inr (File true data) → Text.utf8_valid data = true →
  contents_of w p = Text.universal_newlines data.
Proof. intros Hs Hv. unfold contents_of, read_text. by rewrite Hs, Hv. Qed.

(** C2, as amended.  Let the [i]-th collected path be a readable regular
    file whose bytes [data] are valid UTF-8, and let [doc] be the
    pretty-printed document.  Then the text of the [i]-th [contents]
    element read back from [doc] is [data] after universal-newline
    translation (every CR LF and every lone CR replaced by LF); it is
    [data] itself when [data] has no carriage return.  Moreover, whenever
    [main] reports completion, [doc] is the text of the file then found at
    the output path. *)
Theorem contents_round_trip w args i p data doc :
  elements (collect w args).1 !! i = Some p →
  FS.stat w p = inr (File true data) →
  Text.utf8_valid data = true →
  prettify_xml (create_xml_structure w (collect w args).1) = Ok doc →
  XmlRead.element_texts "contents" doc !! i
    = Some (Text.universal_newlines data) ∧
  (has_carriage_return data = false →
   XmlRead.element_texts "contents" doc !! i = Some data) ∧
  (last (run_stderr (main w (Parsed args)))
     = Some (Log INFO XmlFileCreationComplete) →
   ∃ r, FS.stat (run_world (main w (Parsed args))) (output_file args)
          = inr (File r doc)).
Proof.
  intros Hi Hs Hv Hdoc.
  destruct (document_texts w _ doc Hdoc) as [Hc _].
  assert (XmlRead.element_texts "contents" doc !! i
          = Some (Text.universal_newlines data)) as Ht.
  { rewrite Hc, list_lookup_fmap, Hi. simpl. unfold Layout.dom_text.
    by rewrite (read_text_contents w p data), universal_newlines_idem. }
  split_and!; [done| |].
  - intros Hcr. by rewrite Ht, universal_newlines_id.
  - intros (doc' & r & Hdoc' & Hr)%main_write_inv.
    exists r. congruence.
Qed.

(** A file with DOS line ends, read back through the theorem. *)
Lemma contents_round_trip_witness :
  let args := mkNamespace None (Some [Sample.rel ["dos.py"]])
                          (Sample.rel ["out.xml"]) in
  ∃ doc,
    prettify_xml (create_xml_structure Sample.w2 (collect Sample.w2 args).1)
      = Ok doc ∧
    XmlRead.element_texts "contents" doc !! 0 = Some Sample.two_lines_lf.
Proof.
  intros args.
  destruct (prettify_xml (create_xml_structure Sample.w2
              (collect Sample.w2 args).1)) as [doc|] eqn:Hdoc;
    [|by vm_compute in Hdoc].
  exists doc. split; [done|].
  exact (proj1 (contents_round_trip Sample.w2 args 0
                  (Sample.abs ["proj"; "dos.py"]) Sample.two_lines_crlf doc
                  eq_refl eq_refl eq_refl Hdoc)).
Defined.

(** C2, as stated, fails on a file with DOS line ends: the file holds
    [x = 1 CR LF y = 2], which is valid UTF-8 and is read without error;
    the run succeeds; the [contents] element of the file it writes holds
    [x = 1 LF y = 2], which is not the text of the file. *)
Lemma crlf_contents_counterexample :
  let args := mkNamespace None (Some [Sample.rel ["dos.py"]])
                          (Sample.rel ["out.xml"]) in
  let run := main Sample.w2 (Parsed args) in
  ∃ doc,
    elements (collect Sample.w2 args).1 = [Sample.abs ["proj"; "dos.py"]] ∧
    FS.stat Sample.w2 (Sample.abs ["proj"; "dos.py"])
      = inr (File true Sample.two_lines_crlf) ∧
    Text.utf8_valid Sample.two_lines_crlf = true ∧
    read_text Sample.w2 (Sample.abs ["proj"; "dos.py"])
      = Ok Sample.two_lines_lf ∧
    run_outcome run = Returned ∧
    last (run_stderr run) = Some (Log INFO XmlFileCreationComplete) ∧
    FS.stat (run_world run) (Sample.rel ["out.xml"]) = inr (File true doc) ∧
    XmlRead.element_texts "contents" doc = [Sample.two_lines_lf] ∧
    Sample.two_lines_lf ≠ Sample.two_lines_crlf.
Proof.
  intros args run.
  destruct (FS.stat (run_world run) (Sample.rel ["out.xml"]))
    as [|[r doc|]] eqn:Hdoc; try by vm_compute in Hdoc.
  exists doc. vm_compute in Hdoc. injection Hdoc as <- <-.
  split_and!; try by vm_compute.
Qed.

(** ** When the output cannot be written *)

(** On a sequence free of [..], collapsing changes nothing and the kernel
    walk is the plain descent. *)
Lemma collapse_plain acc cs :
  ".." ∉ cs → FS.collapse acc cs = rev acc ++ cs.
Proof.
  revert acc. induction cs as [|c cs IH]; intros acc Hcs; simpl.
  - by rewrite app_nil_r.
  - apply not_elem_of_cons in Hcs as [Hc Hcs].
    rewrite decide_False by done. rewrite IH by done. simpl.
    by rewrite <- app_assoc.
Qed.

Lemma walk_plain up cur cs m :
  ".." ∉ cs → descend cur cs = Some m → FS.walk up cur cs = inr m.
Proof.
  revert up cur. induction cs as [|c cs IH]; intros up cur Hcs; simpl.
  - by intros [= ->].
  - apply not_elem_of_cons in Hcs as [Hc Hcs].
    destruct cur as [|es]; [done|]. rewrite decide_False by done.
    destruct (FS.find_entry c es); [by apply IH|done].
Qed.
















(** ** Paths reachable both ways *)

(** C1 on a relative [--input-dir].  The process runs in /proj, which
    holds src/a.py; the command line is [--input-dir src --file src/a.py].
    The scan yields the relative path src/a.py, the explicit list yields
    its resolved form /proj/src/a.py; the set keeps both, and the written
    document has two records with the same [filepath]. *)
Theorem relative_scan_duplicates_record :
  let args := mkNamespace (Some (Sample.rel ["src"]))
                          (Some [Sample.rel ["src"; "a.py"]])
                          (Sample.rel ["out.xml"]) in
  let run := main Sample.w1 (Parsed args) in
  get_target_files Sample.w1 (Sample.rel ["src"]) EXTENSIONS
    = [Sample.rel ["src"; "a.py"]] ∧
  (filter_files_by_extension Sample.w1 [Sample.rel ["src"; "a.py"]]
     EXTENSIONS).1 = [Sample.abs ["proj"; "src"; "a.py"]] ∧
  FS.resolve Sample.w1 (Sample.rel ["src"; "a.py"])
    = Sample.abs ["proj"; "src"; "a.py"] ∧
  size (collect Sample.w1 args).1 = 2 ∧
  length (children (create_xml_structure Sample.w1
                      (collect Sample.w1 args).1)) = 2 ∧
  ∃ doc,
    FS.stat (run_world run) (Sample.rel ["out.xml"]) = inr (File true doc) ∧
    XmlRead.element_texts "filepath" doc
      = ["/proj/src/a.py"; "/proj/src/a.py"].
Proof.
  intros args run. split_and!; try by vm_compute.
  destruct (FS.stat (run_world run) (Sample.rel ["out.xml"]))
    as [|[r doc|]] eqn:Hdoc; try by vm_compute in Hdoc.
  exists doc. vm_compute in Hdoc. injection Hdoc as <- <-.
  split; by vm_compute.
Qed.


(** * Further properties *)

(** ** Matching of extensions *)

Lemma lower_ascii_dot a : PyStr.lower_ascii a = "."%char ↔ a = "."%char.
Proof.
  destruct a as [[] [] [] [] [] [] [] []]; split; intros H;
    first [reflexivity | by vm_compute in H].
Qed.

Lemma lower_ascii_idem a :
  PyStr.lower_ascii (PyStr.lower_ascii a) = PyStr.lower_ascii a.
Proof. by destruct a as [[] [] [] [] [] [] [] []]. Qed.

Lemma lower_idem s : PyStr.lower (PyStr.lower s) = PyStr.lower s.
Proof.
  induction s as [|a s IH]; [done|]. simpl. by rewrite lower_ascii_idem, IH.
Qed.

Lemma length_lower s : String.length (PyStr.lower s) = String.length s.
Proof. induction s as [|a s IH]; [done|]. simpl. by rewrite IH. Qed.

Lemma rfind_dot_lower s :
  PyStr.rfind "." (PyStr.lower s) = PyStr.rfind "." s.
Proof.
  induction s as [|a s IH]; [done|]. simpl. rewrite IH.
  destruct (PyStr.rfind "." s); [done|].
  destruct (decide (a = "."%char)) as [->|Ha]; [done|].
  rewrite decide_False; [done|]. by rewrite lower_ascii_dot.
Qed.

Lemma drop_lower i s :
  PyStr.drop i (PyStr.lower s) = PyStr.lower (PyStr.drop i s).
Proof.
  revert s. induction i as [|i IH]; intros [|a s]; simpl; done.
Qed.

Lemma suffix_of_name_lower nm :
  PurePath.suffix_of_name (PyStr.lower nm)
  = PyStr.lower (PurePath.suffix_of_name nm).
Proof.
  unfold PurePath.suffix_of_name. rewrite rfind_dot_lower, length_lower.
  destruct (PyStr.rfind "." nm) as [i|]; [|done].
  destruct (_ && _); [apply drop_lower|done].
Qed.

(** X3. The extension test looks at the name without regard to case: a
    name is accepted exactly when its lower-cased form is. *)
Theorem extension_test_ignores_case nm :
  has_source_extension nm ↔ has_source_extension (PyStr.lower nm).
Proof.
  unfold has_source_extension. by rewrite suffix_of_name_lower, lower_idem.
Qed.

Lemma string_split_at i s :
  i ≤ String.length s →
  ∃ a, s = a +:+ PyStr.drop i s ∧ String.length a = i.
Proof.
  revert s. induction i as [|i IH]; intros s Hi.
  - by exists "".
  - destruct s as [|c s]; simpl in Hi; [lia|].
    destruct (IH s) as (a & Ha & Hl); [lia|].
    exists (String c a). simpl. rewrite string_app_cons. by rewrite <- Ha, Hl.
Qed.

Lemma length_string_app a b :
  String.length (a +:+ b) = String.length a + String.length b.
Proof.
  induction a as [|c a IH]; [done|]. rewrite string_app_cons. simpl. by rewrite IH.
Qed.

Lemma drop_string_app a b : PyStr.drop (String.length a) (a +:+ b) = b.
Proof. induction a as [|c a IH]; [by destruct b|]. by rewrite string_app_cons. Qed.

Lemma rfind_string_app c a b i :
  PyStr.rfind c b = Some i →
  PyStr.rfind c (a +:+ b) = Some (String.length a + i).
Proof.
  intros Hb. induction a as [|x a IH]; [done|].
  rewrite string_app_cons. simpl. by rewrite IH.
Qed.

(** X2. A name passes the extension test exactly when it is a non-empty
    stem followed by one of the five extensions written in any mix of
    upper and lower case; so a file called just [.py] is not a source
    file, and [a.tar.PY] is. *)
Theorem extension_test_characterised nm :
  has_source_extension nm ↔
  ∃ stem ext, nm = stem +:+ ext ∧ stem ≠ "" ∧
              PyStr.lower ext ∈ [".py"; ".ts"; ".jsx"; ".js"; ".tsx"].
Proof.
  unfold has_source_extension, PurePath.suffix_of_name. split.
  - destruct (PyStr.rfind "." nm) as [i|] eqn:Hi.
    2:{ intros H. exfalso. revert H. rewrite !elem_of_cons, elem_of_nil.
        by intros [?|[?|[?|[?|[?|[]]]]]]. }
    destruct (bool_decide (0 < i)) eqn:H0; simpl.
    2:{ intros H. exfalso. revert H. rewrite !elem_of_cons, elem_of_nil.
        by intros [?|[?|[?|[?|[?|[]]]]]]. }
    destruct (bool_decide (i < String.length nm - 1)) eqn:H1.
    2:{ intros H. exfalso. revert H. rewrite !elem_of_cons, elem_of_nil.
        by intros [?|[?|[?|[?|[?|[]]]]]]. }
    apply bool_decide_eq_true in H0, H1. intros Hext.
    destruct (string_split_at i nm) as (stem & Hs & Hl); [lia|].
    exists stem, (PyStr.drop i nm). split_and!; [done| |done].
    intros ->. simpl in Hl. lia.
  - intros (stem & ext & -> & Hstem & Hext).
    assert (PyStr.rfind "." ext = Some 0 ∧ 2 ≤ String.length ext) as [Hr Hlen].
    { rewrite <- rfind_dot_lower, <- length_lower.
      revert Hext. rewrite !elem_of_cons, elem_of_nil.
      by intros [->|[->|[->|[->|[->|[]]]]]]; split; simpl; try lia. }
    rewrite (rfind_string_app _ stem ext 0 Hr), Nat.add_0_r, length_string_app.
    rewrite !bool_decide_eq_true_2; [|lia|destruct stem; simpl; [done|lia]].
    simpl. by rewrite drop_string_app.
Qed.

(** ** Distinct scan results *)






(** ** Resolved paths *)

(** Resolving a path in resolved form changes nothing. *)
Lemma resolve_resolved w q : resolved_form q → FS.resolve w q = q.
Proof.
  intros [Habs Hplain]. destruct q as [ab ps]. simpl in *. subst ab.
  unfold FS.resolve, FS.absolute_parts. simpl. by rewrite collapse_plain.
Qed.

(** The resolved form of a path names the node the path names. *)
Lemma stat_resolve w p n :
  FS.stat w p = inr n → FS.stat w (FS.resolve w p) = inr n.
Proof.
  unfold FS.stat. intros Hp.
  apply (walk_descend (Dir (root w)) [] [] _ _ _ eq_refl I) in Hp.
  apply walk_plain; [|done]. apply collapse_no_dotdot, not_elem_of_nil.
Qed.

Lemma filter_files_lengths w files :
  length (filter (λ f, has_source_extension (PurePath.name f) ∧
                       FS.is_file w f = true) files)
  + length (filter (λ f, has_source_extension (PurePath.name f) ∧
                         FS.is_file w f = false) files)
  = length (filter (λ f, has_source_extension (PurePath.name f)) files).
Proof.
  induction files as [|f files IH]; [done|].
  rewrite !filter_cons.
  destruct (decide (has_source_extension (PurePath.name f))) as [Hext|Hext].
  - destruct (FS.is_file w f) eqn:Hf.
    + rewrite decide_True by done.
      rewrite decide_False by (intros [_ ?]; congruence).
      simpl. by rewrite IH.
    + rewrite decide_False by (intros [_ ?]; congruence).
      rewrite decide_True by done.
      simpl. by rewrite Nat.add_succ_r, IH.
  - by rewrite !decide_False by (by intros [? _]).
Qed.

(** X4. Whatever the explicit-file operation returns names a regular file
    and is given in resolved form; and every listed path with a source
    extension is accounted for exactly once: the kept paths and the
    warnings together are as many as the listed paths that carry one of
    the extensions. *)
Theorem filter_files_accounts_for_each_path w files :
  Forall (λ q, FS.is_file w q = true ∧ resolved_form q)
         (filter_files_by_extension w files EXTENSIONS).1 ∧
  length (filter_files_by_extension w files EXTENSIONS).1
  + length (filter_files_by_extension w files EXTENSIONS).2
  = length (filter (λ f, has_source_extension (PurePath.name f)) files).
Proof.
  unfold filter_files_by_extension. rewrite filter_files_fold. simpl. split.
  - apply Forall_forall.
    intros q (f & -> & [[Hext Hfile] _]%list_elem_of_filter)%list_elem_of_fmap.
    split; [|apply resolve_resolved_form].
    unfold FS.is_file in *.
    destruct (FS.stat w f) as [|[r d|]] eqn:Hf; try done.
    by rewrite (stat_resolve w f _ Hf).
  - rewrite !length_map. apply filter_files_lengths.
Qed.

Lemma read_text_resolve w p c :
  read_text w p = Ok c → read_text w (FS.resolve w p) = Ok c.
Proof.
  unfold read_text.
  destruct (FS.stat w p) as [|[[] d|]] eqn:Hp; try done.
  by rewrite (stat_resolve w p _ Hp).
Qed.

(** X5. The fields of a record agree with each other: when a collected
    path is read successfully, its record carries the resolved path in
    [filepath] and the text in [contents], and reading the file at that
    resolved path gives that same text. *)
Theorem record_fields_agree w files p c :
  p ∈ files → read_text w p = Ok c →
  ∃ rec, rec ∈ children (create_xml_structure w files) ∧
         field "filepath" rec = Some (PurePath.str (FS.resolve w p)) ∧
         field "contents" rec = Some c ∧
         read_text w (FS.resolve w p) = Ok c.
Proof.
  intros Hp Hc. exists (file_record w p). split_and!.
  - rewrite create_xml_structure_records. simpl.
    apply list_elem_of_fmap. exists p. by rewrite elem_of_elements.
  - done.
  - rewrite field_contents_file_record. unfold contents_of. by rewrite Hc.
  - by apply read_text_resolve.
Qed.

Lemma record_fields_agree_witness :
  read_text Sample.w0
    (FS.resolve Sample.w0 (Sample.rel ["src"; ".."; "src"; "a.py"]))
  = Ok "print(1)".
Proof.
  destruct (record_fields_agree Sample.w0
              {[ Sample.rel ["src"; ".."; "src"; "a.py"] ]}
              (Sample.rel ["src"; ".."; "src"; "a.py"]) "print(1)")
    as (rec & _ & _ & _ & H); [|reflexivity|exact H].
  by apply elem_of_singleton.
Defined.

(** ** One record per file *)

(** With [--file] alone, the collected set is the set of the paths kept
    from the list. *)
Lemma collect_explicit w args :
  input_dir args = None →
  (collect w args).1
  = list_to_set
      (filter_files_by_extension w (default [] (file args)) EXTENSIONS).1.
Proof.
  intros Hdir. unfold collect. rewrite Hdir.
  assert ((filter_files_by_extension w [] EXTENSIONS).1 = []) as Hnil by done.
  destruct (file args) as [[|f fs]|]; cbn [truthy_list default from_option id].
  - rewrite Hnil. cbn [fst]. by rewrite list_to_set_nil.
  - destruct (filter_files_by_extension w (f :: fs) EXTENSIONS)
      as [kept warns]. cbn [fst]. by rewrite (left_id_L ∅ (∪)).
  - rewrite Hnil. cbn [fst]. by rewrite list_to_set_nil.
Qed.

(** X6. With [--file] alone, the collected set is keyed by resolved path:
    a listed regular file with a source extension is collected as its
    resolved path, however it is spelled and however often it is listed,
    and two collected paths with the same resolved form are the same
    path; so such a file gets one record. *)
Theorem collected_keyed_by_resolved_path w args :
  input_dir args = None →
  (∀ f, f ∈ default [] (file args) →
        has_source_extension (PurePath.name f) → FS.is_file w f = true →
        FS.resolve w f ∈ (collect w args).1) ∧
  (∀ p q, p ∈ (collect w args).1 → q ∈ (collect w args).1 →
          FS.resolve w p = FS.resolve w q → p = q).
Proof.
  intros Hdir. rewrite (collect_explicit w args Hdir).
  unfold filter_files_by_extension. rewrite filter_files_fold. simpl. split.
  - intros f Hin Hext Hfile. apply elem_of_list_to_set, list_elem_of_fmap.
    exists f. split; [done|]. by apply list_elem_of_filter.
  - assert (∀ p, p ∈ map (FS.resolve w)
                   (filter (λ f, has_source_extension (PurePath.name f) ∧
                                 FS.is_file w f = true)
                           (default [] (file args))) →
                 FS.resolve w p = p) as Hres.
    { intros p (f & -> & _)%list_elem_of_fmap.
      apply resolve_resolved, resolve_resolved_form. }
    intros p q Hp%elem_of_list_to_set%Hres Hq%elem_of_list_to_set%Hres.
    congruence.
Qed.

(** /proj/src/a.py listed under three spellings is collected once. *)
Lemma collected_keyed_by_resolved_path_witness :
  let args := mkNamespace None
                (Some [Sample.rel ["src"; "a.py"];
                       Sample.rel ["src"; ".."; "src"; "a.py"];
                       Sample.abs ["proj"; "src"; "a.py"]])
                (Sample.rel ["out.xml"]) in
  Sample.abs ["proj"; "src"; "a.py"] ∈ (collect Sample.w1 args).1 ∧
  size (collect Sample.w1 args).1 = 1.
Proof.
  intros args. split; [|reflexivity].
  apply (proj1 (collected_keyed_by_resolved_path Sample.w1 args eq_refl)
               (Sample.rel ["src"; ".."; "src"; "a.py"])).
  - simpl. rewrite !elem_of_cons. tauto.
  - unfold has_source_extension. rewrite elem_of_cons. left. reflexivity.
  - reflexivity.
Defined.

(** ** What the rendered document holds *)

Lemma seg_texts_record_filename w p prev r :
  Layout.seg_texts "filename" prev (Layout.record_segs w p ++ r)
  = XmlRead.unescape (DOM.write_data (Layout.dom_text (PurePath.name p)))
    :: Layout.seg_texts "filename" "/file" r.
Proof. read_record_field. Qed.

Lemma seg_texts_records_filename w files prev r :
  Layout.seg_texts "filename" prev (flat_map (Layout.record_segs w) files ++ r)
  = map (λ p, Layout.dom_text (PurePath.name p)) files
    ++ Layout.seg_texts "filename"
         (match files with [] => prev | _ => "/file" end) r.
Proof.
  revert prev. induction files as [|p files IH]; intros prev; [done|].
  cbn [flat_map map]. rewrite <- app_assoc, seg_texts_record_filename, IH.
  rewrite unescape_write_data. simpl. do 2 f_equal. by destruct files.
Qed.

Lemma seg_texts_document_filename w files :
  Layout.seg_texts "filename" "" (Layout.document_segs w files)
  = map (λ p, Layout.dom_text (PurePath.name p)) files.
Proof.
  destruct files as [|p files]; [done|].
  unfold Layout.document_segs.
  change (Layout.seg_texts "filename" "" (?a :: ?b :: ?l))
    with (Layout.seg_texts "filename" "codebase" l).
  rewrite seg_texts_records_filename. apply app_nil_r.
Qed.

(** X7. Whatever the files hold, the pretty-printed document can be read
    back field by field: its [filename], [filepath] and [contents]
    elements are, in the iteration order of the set, the names, the
    resolved paths and the stored contents (file text or error text) of
    the collected paths, with line ends normalised.  Markup characters in
    a file are escaped, so they never add or remove an element. *)
Theorem rendered_fields_read_back w files doc :
  prettify_xml (create_xml_structure w files) = Ok doc →
  XmlRead.element_texts "filename" doc
    = map (λ p, Text.universal_newlines (PurePath.name p)) (elements files) ∧
  XmlRead.element_texts "filepath" doc
    = map (λ p, Text.universal_newlines (PurePath.str (FS.resolve w p)))
          (elements files) ∧
  XmlRead.element_texts "contents" doc
    = map (λ p, Text.universal_newlines (contents_of w p)) (elements files).
Proof.
  intros Hdoc. destruct (document_texts w files doc Hdoc) as [Hc Hp].
  split_and!; [|done..].
  apply prettify_xml_inv in Hdoc as ->.
  rewrite create_xml_structure_records, render_document.
  rewrite element_texts_unsegs by (done || apply plain_document_segs).
  apply seg_texts_document_filename.
Qed.

(** A file whose text is itself markup. *)
Lemma rendered_fields_read_back_witness :
  ∃ doc,
    prettify_xml (create_xml_structure Sample.w0
                    {[ Sample.rel ["src"; "pkg.py"; "inner.ts"] ]}) = Ok doc ∧
    XmlRead.element_texts "contents" doc = ["let x = 1 < 2;"].
Proof.
  destruct (prettify_xml (create_xml_structure Sample.w0
              {[ Sample.rel ["src"; "pkg.py"; "inner.ts"] ]}))
    as [doc|] eqn:Hdoc; [|by vm_compute in Hdoc].
  exists doc. split; [done|].
  exact (proj2 (proj2 (rendered_fields_read_back Sample.w0 _ doc Hdoc))).
Defined.

(** ** When rendering fails *)

Lemma strings_of_records w files :
  DOM.strings_of (mkElement "codebase" [] None (map (file_record w) files))
  = flat_map (λ p, [PurePath.name p; PurePath.str (FS.resolve w p);
                    contents_of w p]) files.
Proof.
  simpl. induction files as [|p files IH]; [done|]. simpl. by rewrite IH.
Qed.

Lemma prettify_xml_ok_iff elem :
  (∃ doc, prettify_xml elem = Ok doc) ↔
  ∀ s, s ∈ DOM.strings_of elem → serialisable s = true.
Proof.
  unfold prettify_xml, DOM.parseString_tostring, serialisable. split.
  - intros [doc Hdoc] s Hs%list_elem_of_In.
    destruct (find _ (DOM.strings_of elem)) eqn:H1; [done|].
    destruct (find (λ s, negb (DOM.well_formed s)) _) eqn:H2; [done|].
    apply (find_none _ _ H1) in Hs as H1'. apply (find_none _ _ H2) in Hs as H2'.
    apply negb_false_iff in H1', H2'. by rewrite H1', H2'.
  - intros Hall.
    destruct (find _ (DOM.strings_of elem)) as [s|] eqn:H1.
    { apply find_some in H1 as [Hs%list_elem_of_In H1].
      apply Hall, andb_true_iff in Hs as [Hs _]. by rewrite Hs in H1. }
    destruct (find (λ s, negb (DOM.well_formed s)) _) as [s|] eqn:H2.
    { apply find_some in H2 as [Hs%list_elem_of_In H2].
      apply Hall, andb_true_iff in Hs as [_ Hs]. by rewrite Hs in H2. }
    by eexists.
Qed.

(** X8. Rendering the document of a set of paths succeeds exactly when
    the name, the resolved path and the stored contents of every path are
    valid UTF-8 and free of characters XML forbids; otherwise
    [prettify_xml] raises. *)
Theorem prettify_xml_succeeds_iff w files :
  (∃ doc, prettify_xml (create_xml_structure w files) = Ok doc) ↔
  ∀ p, p ∈ files →
       serialisable (PurePath.name p) = true ∧
       serialisable (PurePath.str (FS.resolve w p)) = true ∧
       serialisable (contents_of w p) = true.
Proof.
  rewrite prettify_xml_ok_iff, create_xml_structure_records, strings_of_records.
  split.
  - intros Hall p Hp%elem_of_elements%list_elem_of_In.
    split_and!; apply Hall, list_elem_of_In, in_flat_map; exists p;
      (split; [done|]); simpl; tauto.
  - intros Hall s (p & Hp & Hs)%list_elem_of_In%in_flat_map.
    apply list_elem_of_In, elem_of_elements, Hall in Hp as (? & ? & ?).
    simpl in Hs. by destruct Hs as [<-|[<-|[<-|[]]]].
Qed.

Lemma contents_of_read w p c :
  read_text w p = Ok c → contents_of w p = c.
Proof. unfold contents_of. by intros ->. Qed.

(** X9. One file is enough to abort the run: when some collected file is
    read successfully but its text holds a character XML forbids (a form
    feed, say), [prettify_xml] raises, nothing in [main] catches it, and
    the process ends with a traceback and exit status 1 without touching
    the file system; no document is written for the other files either. *)
Theorem illegal_character_aborts_run w args p c :
  p ∈ (collect w args).1 → read_text w p = Ok c →
  DOM.well_formed c = false →
  ∃ e, run_outcome (main w (Parsed args)) = Uncaught e ∧
       exit_code (run_outcome (main w (Parsed args))) = 1%Z ∧
       run_world (main w (Parsed args)) = w ∧
       last (run_stderr (main w (Parsed args))) = Some (Traceback e).
Proof.
  intros Hp Hc Hbad.
  assert ((collect w args).1 ≠ ∅) as Hne.
  { intros Heq. rewrite Heq in Hp. by apply elem_of_empty in Hp. }
  destruct (prettify_xml (create_xml_structure w (collect w args).1))
    as [doc|e] eqn:Hdoc.
  { assert (serialisable (contents_of w p) = true) as Hs.
    { apply (proj1 (prettify_xml_ok_iff _) (ex_intro _ doc Hdoc)).
      rewrite create_xml_structure_records, strings_of_records.
      apply list_elem_of_In, in_flat_map. exists p.
      split; [by apply list_elem_of_In, elem_of_elements|]. simpl. tauto. }
    rewrite (contents_of_read w p c Hc) in Hs.
    apply andb_true_iff in Hs as [_ Hs]. congruence. }
  exists e. unfold main. rewrite (collect_nonempty_accepts w args Hne).
  unfold main_body. destruct (collect w args) as [files log].
  cbn [fst] in *. rewrite decide_False by done. rewrite Hdoc.
  cbn [run_outcome run_world run_stderr exit_code].
  split_and!; [done..|]. by rewrite last_snoc.
Qed.

(** /proj/paged.py holds a form feed; /proj/ok.py is fine. *)
Lemma illegal_character_aborts_run_witness :
  let args := mkNamespace None
                (Some [Sample.rel ["ok.py"]; Sample.rel ["paged.py"]])
                (Sample.rel ["out.xml"]) in
  exit_code (run_outcome (main Cases.w3 (Parsed args))) = 1%Z ∧
  run_world (main Cases.w3 (Parsed args)) = Cases.w3.
Proof.
  intros args.
  destruct (illegal_character_aborts_run Cases.w3 args
              (Sample.abs ["proj"; "paged.py"]) Cases.paged)
    as (e & _ & Hc & Hw & _).
  - apply elem_of_elements. vm_compute. right. left.
  - reflexivity.
  - reflexivity.
  - by split.
Defined.

(** ** What a run leaves behind *)


(** ** Creating the output directory *)









(** ** A completed run, end to end *)

Lemma collect_log_total w args :
  ∃ l, (collect w args).2
       = l ++ [Log INFO (TotalUniqueFiles (size (collect w args).1))].
Proof.
  unfold collect.
  destruct (input_dir args) as [d|]; destruct (truthy_list (file args));
    try destruct (filter_files_by_extension _ _ _) as [kept warns];
    cbn [fst snd]; rewrite ?app_assoc; by eexists.
Qed.

Lemma main_body_log_prefix w args :
  ∃ l, run_stderr (main_body w args) = (collect w args).2 ++ l.
Proof.
  unfold main_body. destruct (collect w args) as [files log]. cbn [snd].
  case_decide; [by eexists|].
  destruct (prettify_xml _) as [doc|e].
  2:{ cbn [run_stderr]. rewrite <- !app_assoc. by eexists. }
  destruct (ensure_output_dir _ _) as [w1 [l|e]].
  2:{ cbn [run_stderr]. rewrite <- !app_assoc. by eexists. }
  destruct (FSWrite.write_text _ _ _) as [w2|e];
    cbn [run_stderr]; rewrite <- !app_assoc; by eexists.
Qed.

(** X12. When a run reports completion, the output path holds a document
    that lists exactly the collected set: reading it back gives one
    [filepath] per collected path, namely its resolved form, as many
    records as the logged total of unique files, and at least one. *)
Theorem completed_run_lists_collected_set w args :
  last (run_stderr (main w (Parsed args)))
    = Some (Log INFO XmlFileCreationComplete) →
  ∃ doc r,
    FS.stat (run_world (main w (Parsed args))) (output_file args)
      = inr (File r doc) ∧
    XmlRead.element_texts "filepath" doc
      = map (λ p, Text.universal_newlines (PurePath.str (FS.resolve w p)))
            (elements (collect w args).1) ∧
    length (XmlRead.element_texts "contents" doc) = size (collect w args).1 ∧
    Log INFO (TotalUniqueFiles (size (collect w args).1))
      ∈ run_stderr (main w (Parsed args)) ∧
    0 < size (collect w args).1.
Proof.
  intros Hlast.
  destruct (main_write_inv w args Hlast) as (doc & r & Hdoc & Hstat).
  destruct (document_texts w _ doc Hdoc) as [Hc Hp].
  exists doc, r. split_and!; [done..| | |].
  - rewrite Hc, length_map. done.
  - unfold main in *.
    destruct (parse_arguments (Parsed args)) as [[st pr]|a] eqn:Hparse.
    { unfold parse_arguments in Hparse. by case_match; simplify_eq. }
    assert (a = args) as ->.
    { unfold parse_arguments in Hparse. by case_match; simplify_eq. }
    destruct (main_body_log_prefix w args) as [l ->].
    destruct (collect_log_total w args) as [l0 ->].
    rewrite !elem_of_app, elem_of_cons. tauto.
  - destruct (decide ((collect w args).1 = ∅)) as [He|Hne].
    + exfalso. unfold main in Hlast.
      destruct (parse_arguments (Parsed args)) as [[st pr]|a] eqn:Hparse.
      { unfold parse_arguments in Hparse. by case_match; simplify_eq. }
      assert (a = args) as ->.
      { unfold parse_arguments in Hparse. by case_match; simplify_eq. }
      rewrite main_body_empty in Hlast by done.
      cbn [run_stderr] in Hlast. by rewrite last_snoc in Hlast.
    + apply Nat.neq_0_lt_0. intros Hz. by apply size_empty_inv, leibniz_equiv in Hz.
Qed.

(** The end-to-end scenario: two listed files, one document. *)
Lemma completed_run_lists_collected_set_witness :
  let args := mkNamespace None
                (Some [Sample.rel ["src"; "a.py"]; Sample.rel ["src"; "B.JS"]])
                (Sample.rel ["out.xml"]) in
  ∃ doc r,
    FS.stat (run_world (main Sample.w0 (Parsed args))) (Sample.rel ["out.xml"])
      = inr (File r doc) ∧
    length (XmlRead.element_texts "contents" doc) = 2.
Proof.
  intros args.
  destruct (completed_run_lists_collected_set Sample.w0 args)
    as (doc & r & Hs & _ & Hl & _); [by vm_compute|].
  exists doc, r. split; [exact Hs|]. rewrite Hl. reflexivity.
Defined.

(** ** Files a run leaves alone *)



